(** * hsup allocator: UID reservation and /30 subnet derivation

    A shallow embedding of [allocator.go] (package [hsup]) together with the
    small part of the Go standard library it calls, followed by the
    properties of the allocator that the specification states.

    Conventions.
    - Go [uint32] values are [Z] in [0, 2^32); every operation writes its
      wrap-around out ([uint32]).  Go [int] is the 64-bit two's complement
      integer of the amd64 target ([int_wrap]).
    - Go [byte] values are [Z] in [0, 256); [[]byte], [net.IP] and
      [net.IPMask] are [list Z], the nil slice being [[]].
    - A Go function returning [(T, error)] returns a [result T]; a run-time
      panic is the third constructor.
    - The file system, the entropy source and the pseudo random generator
      are an explicit [World] that is threaded through the effectful
      functions. *)

From stdpp Require Import gmap strings list.
From Stdlib Require Import ZArith Lia DecimalString DecimalZ.

Local Open Scope Z_scope.

(** ** Results of Go calls *)

Inductive Errno := EEXIST | ENOENT | EACCES | ENOSPC | EIO.

Module net_types.
(** [net.IP] and [net.IPMask] are byte slices. *)
Definition IP := list Z.
Definition IPMask := list Z.
End net_types.

Module IPNet.
(** [type IPNet struct { IP IP; Mask IPMask }] *)
Record t := mk { IP : net_types.IP; Mask : net_types.IPMask }.
End IPNet.

Inductive error :=
| EOF                                   (* io.EOF *)
| ErrUnexpectedEOF                      (* io.ErrUnexpectedEOF *)
| PathError (op path : string) (e : Errno)  (* *os.PathError *)
| EntropyError                          (* crypto/rand could not be read *)
| errorString (s : string)              (* errors.New(s) *)
| OutOfSubnetError (ip : net_types.IP) (subnet : IPNet.t).
    (* fmt.Errorf("the assigned IP %q falls out of the allowed subnet %q") *)

Inductive result (A : Type) :=
| Ok (a : A)
| Err (e : error)
| Panic (msg : string).
Arguments Ok {A} a.
Arguments Err {A} e.
Arguments Panic {A} msg.

Global Instance result_bind : MBind result := fun A B k r =>
  match r with
  | Ok a => k a
  | Err e => Err e
  | Panic m => Panic m
  end.

(** ** Machine integers *)

Definition uint32 (z : Z) : Z := z mod 2 ^ 32.
Definition int_wrap (z : Z) : Z := (z + 2 ^ 63) mod 2 ^ 64 - 2 ^ 63.
Definition to_byte (z : Z) : Z := z mod 2 ^ 8.

Definition int_add (a b : Z) : Z := int_wrap (a + b).
Definition int_sub (a b : Z) : Z := int_wrap (a - b).
Definition int_mul (a b : Z) : Z := int_wrap (a * b).

(** [x << n] and [x >> n] on [uint32]: a count of 32 or more gives 0. *)
Definition uint32_shl (x n : Z) : Z :=
  if 32 <=? n then 0 else uint32 (Z.shiftl x n).
Definition uint32_shr (x n : Z) : Z :=
  if 32 <=? n then 0 else Z.shiftr x n.
Definition uint32_add (x y : Z) : Z := uint32 (x + y).
Definition uint32_sub (x y : Z) : Z := uint32 (x - y).

(** [uint32(math.Pow(2, float64(k)))].  A power of two is an exact float64:
    for [0 <= k < 32] the conversion is exact; for [k < 0] the float is a
    fraction in [0, 1) and the conversion truncates it to 0.  [k >= 32] does
    not fit a [uint32] (Go leaves the conversion implementation-defined); the
    allocator only calls this with [k <= 30]. *)
Definition uint32_Pow2 (k : Z) : Z :=
  if k <? 0 then 0 else if k <? 32 then 2 ^ k else 0.

Definition is_byte (b : Z) : bool := (0 <=? b) && (b <? 256).
Definition is_bytes (l : list Z) : bool := forallb is_byte l.

(** ** encoding/binary, big endian, for a [uint32] *)

Module binary.
(** [binary.BigEndian.Uint32(b)] *)
Definition BigEndian_Uint32 (b0 b1 b2 b3 : Z) : Z :=
  Z.lor (Z.lor (Z.lor b3 (Z.shiftl b2 8)) (Z.shiftl b1 16)) (Z.shiftl b0 24).

(** [binary.Read(bytes.NewReader(b), binary.BigEndian, &v)] with
    [v : uint32]: reads exactly four bytes (io.ReadFull). *)
Definition Read_uint32 (b : list Z) : result Z :=
  match b with
  | [] => Err EOF
  | b0 :: b1 :: b2 :: b3 :: _ => Ok (BigEndian_Uint32 b0 b1 b2 b3)
  | _ => Err ErrUnexpectedEOF
  end.

(** [binary.Write(&buf, binary.BigEndian, &v)] into a fresh
    [bytes.Buffer]; it cannot fail, the result is [buf.Bytes()]. *)
Definition Write_uint32 (v : Z) : list Z :=
  [to_byte (Z.shiftr v 24); to_byte (Z.shiftr v 16);
   to_byte (Z.shiftr v 8); to_byte v].
End binary.

(** ** package net *)

Module net.
Include net_types.

Definition IPv4len : nat := 4.
Definition IPv6len : nat := 16.
Definition v4InV6Prefix : list Z := [0; 0; 0; 0; 0; 0; 0; 0; 0; 0; 255; 255].

(** [net.IPv4(a, b, c, d)]: the 16-byte form. *)
Definition IPv4 (a b c d : Z) : IP := v4InV6Prefix ++ [a; b; c; d].

Definition isZeros (p : list Z) : bool := forallb (Z.eqb 0) p.
Definition allFF (p : list Z) : bool := forallb (Z.eqb 255) p.
Definition bytes_eqb (p q : list Z) : bool := bool_decide (p = q).

(** [func (ip IP) To4() IP] *)
Definition To4 (ip : IP) : IP :=
  if Nat.eqb (length ip) IPv4len then ip
  else if Nat.eqb (length ip) IPv6len
          && isZeros (take 10 ip)
          && bool_decide (ip !! 10%nat = Some 255)
          && bool_decide (ip !! 11%nat = Some 255)
       then take 4 (drop 12 ip)
       else [].

(** [func CIDRMask(ones, bits int) IPMask] *)
Fixpoint CIDRMask_fill (l : nat) (n : Z) : IPMask :=
  match l with
  | O => []
  | S l' =>
      if 8 <=? n then 255 :: CIDRMask_fill l' (n - 8)
      else to_byte (Z.lnot (Z.shiftr 255 n)) :: CIDRMask_fill l' 0
  end.

Definition CIDRMask (ones bits : Z) : IPMask :=
  if negb (bits =? 32) && negb (bits =? 128) then []
  else if (ones <? 0) || (bits <? ones) then []
  else CIDRMask_fill (Z.to_nat (bits / 8)) ones.

(** [func (ip IP) Mask(mask IPMask) IP] *)
Definition Mask (ip : IP) (mask : IPMask) : IP :=
  let mask :=
    if Nat.eqb (length mask) IPv6len && Nat.eqb (length ip) IPv4len
       && allFF (take 12 mask)
    then drop 12 mask else mask in
  let ip :=
    if Nat.eqb (length mask) IPv4len && Nat.eqb (length ip) IPv6len
       && bytes_eqb (take 12 ip) v4InV6Prefix
    then drop 12 ip else ip in
  if negb (Nat.eqb (length ip) (length mask)) then []
  else zip_with Z.land ip mask.

(** The inner loop of [simpleMaskLength]:
    [for v&0x80 != 0 { n++; v <<= 1 }] on a byte [v]. *)
Fixpoint countOnes (fuel : nat) (n v : Z) : Z * Z :=
  match fuel with
  | O => (n, v)
  | S fuel' =>
      if negb (Z.land v 128 =? 0)
      then countOnes fuel' (n + 1) (to_byte (Z.shiftl v 1))
      else (n, v)
  end.

(** [simpleMaskLength], started with [n] ones already counted. *)
Fixpoint simpleMaskLength_from (n : Z) (mask : IPMask) : Z :=
  match mask with
  | [] => n
  | v :: rest =>
      if v =? 255 then simpleMaskLength_from (n + 8) rest
      else
        let '(n, v) := countOnes 8 n v in
        if negb (v =? 0) then -1
        else if isZeros rest then n else -1
  end.

Definition simpleMaskLength (mask : IPMask) : Z :=
  simpleMaskLength_from 0 mask.

(** [func (m IPMask) Size() (ones, bits int)] *)
Definition Size (m : IPMask) : Z * Z :=
  let ones := simpleMaskLength m in
  let bits := Z.of_nat (length m) * 8 in
  if ones =? -1 then (0, 0) else (ones, bits).

(** [func networkNumberAndMask(n *IPNet) (ip IP, m IPMask)] *)
Definition networkNumberAndMask (n : IPNet.t) : IP * IPMask :=
  let ip4 := To4 (IPNet.IP n) in
  let ip := if Nat.eqb (length ip4) 0 then IPNet.IP n else ip4 in
  if Nat.eqb (length ip4) 0 && negb (Nat.eqb (length ip) IPv6len)
  then ([], [])
  else
    let m := IPNet.Mask n in
    if Nat.eqb (length m) IPv4len then
      if negb (Nat.eqb (length ip) IPv4len) then ([], []) else (ip, m)
    else if Nat.eqb (length m) IPv6len then
      if Nat.eqb (length ip) IPv4len then (ip, drop 12 m) else (ip, m)
    else ([], []).

(** The comparison loop of [Contains]:
    [if nn[i]&m[i] != ip[i]&m[i] { return false }]. *)
Fixpoint sameNetwork (nn m ip : list Z) : bool :=
  match nn, m, ip with
  | n :: nn', k :: m', x :: ip' =>
      if negb (Z.land n k =? Z.land x k) then false
      else sameNetwork nn' m' ip'
  | _, _, _ => true
  end.

(** [func (n *IPNet) Contains(ip IP) bool] *)
Definition Contains (n : IPNet.t) (ip : IP) : bool :=
  let '(nn, m) := networkNumberAndMask n in
  let ip := if negb (Nat.eqb (length (To4 ip)) 0) then To4 ip else ip in
  if negb (Nat.eqb (length ip) (length nn)) then false
  else sameNetwork nn m ip.
End net.

(** ** The world outside the process: file system, entropy, generator *)

Inductive Syscall :=
| SysMkdirAll (path : string)
| SysOpenExcl (path : string)
| SysClose (path : string)
| SysRemove (path : string).

(** [w_files] are the paths of the files that exist.  The faults are what
    the environment currently imposes: [w_dir_fault] on every access below
    the directory (it was removed, it cannot be searched), [w_create_fault]
    on the creation of a new entry (directory not writable, disk full),
    [w_close_fault] on closing a descriptor, [w_mkdir_fault] on creating a
    directory.  [w_entropy] is what [crypto/rand] delivers, [w_prng] the
    output stream of [math/rand] for a seed, and [w_trace] the system calls
    made so far, latest first. *)
Record World := mkWorld {
  w_files : gset string;
  w_dir_fault : option Errno;
  w_create_fault : option Errno;
  w_close_fault : option Errno;
  w_mkdir_fault : option Errno;
  w_entropy : option Z;
  w_prng : Z -> nat -> Z;
  w_trace : list Syscall
}.

Definition log (c : Syscall) (w : World) : World :=
  mkWorld (w_files w) (w_dir_fault w) (w_create_fault w) (w_close_fault w)
          (w_mkdir_fault w) (w_entropy w) (w_prng w) (c :: w_trace w).

Definition set_files (fs : gset string) (w : World) : World :=
  mkWorld fs (w_dir_fault w) (w_create_fault w) (w_close_fault w)
          (w_mkdir_fault w) (w_entropy w) (w_prng w) (w_trace w).

Module os.
(** [os.MkdirAll(path, 0755)] *)
Definition MkdirAll (w : World) (path : string) : World * option error :=
  let w := log (SysMkdirAll path) w in
  match w_mkdir_fault w with
  | Some e => (w, Some (PathError "mkdir" path e))
  | None => (w, None)
  end.

(** [os.OpenFile(path, os.O_CREATE|os.O_EXCL, 0600)]: the atomic
    create-if-absent.  The descriptor it returns is represented by the
    path. *)
Definition OpenFile_CREATE_EXCL (w : World) (path : string)
  : World * result string :=
  let w := log (SysOpenExcl path) w in
  match w_dir_fault w with
  | Some e => (w, Err (PathError "open" path e))
  | None =>
      if bool_decide (path ∈ w_files w)
      then (w, Err (PathError "open" path EEXIST))
      else match w_create_fault w with
           | Some e => (w, Err (PathError "open" path e))
           | None => (set_files ({[path]} ∪ w_files w) w, Ok path)
           end
  end.

(** [f.Close()] *)
Definition Close (w : World) (f : string) : World * option error :=
  let w := log (SysClose f) w in
  match w_close_fault w with
  | Some e => (w, Some (PathError "close" f e))
  | None => (w, None)
  end.

(** [os.Remove(path)] *)
Definition Remove (w : World) (path : string) : World * option error :=
  let w := log (SysRemove path) w in
  match w_dir_fault w with
  | Some e => (w, Some (PathError "remove" path e))
  | None =>
      if bool_decide (path ∈ w_files w)
      then (set_files (w_files w ∖ {[path]}) w, None)
      else (w, Some (PathError "remove" path ENOENT))
  end.
End os.

Module rand.
(** [*rand.Rand]: the generator's output stream and how far it was
    consumed. *)
Record Rand := mk { src : nat -> Z; pos : nat }.

(** [rand.New(rand.NewSource(seed))] *)
Definition New (w : World) (seed : Z) : Rand := mk (w_prng w seed) 0.

(** [r.Intn(n)]: a value in [0, n); panics when [n <= 0]. *)
Definition Intn (r : Rand) (n : Z) : result (Z * Rand) :=
  if n <=? 0 then Panic "invalid argument to Intn"
  else Ok (src r (pos r) mod n, mk (src r) (S (pos r))).
End rand.

Module crand.
(** [crand.Int(crand.Reader, max)]: uniform in [0, max). *)
Definition Int (w : World) (max : Z) : result Z :=
  match w_entropy w with
  | None => Err EntropyError
  | Some z => Ok (z mod max)
  end.
End crand.

Definition math_MaxInt64 : Z := 2 ^ 63 - 1.

Module strconv.
(** [strconv.Itoa(n)]: decimal, with a leading minus sign when negative. *)
Definition Itoa (n : Z) : string := NilZero.string_of_int (Z.to_int n).
End strconv.

Module filepath.
(** [filepath.Join(dir, name)]: empty elements are ignored, the others are
    joined with the separator.  The final [Clean] is not modelled: the
    directory is taken to be a clean path already. *)
Definition Join (dir name : string) : string :=
  if bool_decide (dir = "") then name
  else if bool_decide (name = "") then dir
  else dir +:+ "/" +:+ name.
End filepath.

(** ** allocator.go *)

Definition DefaultPrivateSubnet : IPNet.t :=
  IPNet.mk (net.To4 (net.IPv4 172 16 0 28)) (net.CIDRMask 12 32).

(** [type Allocator struct] *)
Record Allocator := mkAllocator {
  uidsDir : string;
  privateSubnet : IPNet.t;
  basePrivateIP : IPNet.t;
  availableSubnets : Z;
  minUID : Z;
  maxUID : Z;
  rng : rand.Rand
}.

Definition set_rng (r : rand.Rand) (a : Allocator) : Allocator :=
  mkAllocator (uidsDir a) (privateSubnet a) (basePrivateIP a)
              (availableSubnets a) (minUID a) (maxUID a) r.

(** [func subnetsToSkip(baseIP net.IP, subnetSize int) (uint32, error)] *)
Definition subnetsToSkip (baseIP : net.IP) (subnetSize : Z) : result Z :=
  baseIPAsInt ← binary.Read_uint32 baseIP;
  (* cut the first subnetSize bits *)
  let toSkip := uint32_shl baseIPAsInt (uint32 subnetSize) in
  let toSkip := uint32_shr toSkip (uint32 subnetSize) in
  (* cut the last 2 bits *)
  Ok (uint32_shr toSkip 2).

(** [func NewAllocator(workDir string, privateSubnet net.IPNet,
    minUID, maxUID int)], returning [*Allocator, error] *)
Definition NewAllocator (w : World) (workDir : string)
    (privateSubnet : IPNet.t) (minUID maxUID : Z) : World * result Allocator :=
  let uids := filepath.Join workDir "uids" in
  match os.MkdirAll w uids with
  | (w, Some err) => (w, Err err)
  | (w, None) =>
      (w,
       seed ← crand.Int w math_MaxInt64;
       let subnetSize := fst (net.Size (IPNet.Mask privateSubnet)) in
       let availableSubnets := uint32_Pow2 (int_sub 30 subnetSize) in
       toSkip ← subnetsToSkip (net.To4 (IPNet.IP privateSubnet)) subnetSize;
       let availableSubnets := uint32_sub availableSubnets toSkip in
       let baseIP :=
         IPNet.mk (net.To4 (IPNet.IP privateSubnet)) (net.CIDRMask 30 32) in
       let subnet :=
         IPNet.mk
           (net.To4 (net.Mask (IPNet.IP privateSubnet)
                              (IPNet.Mask privateSubnet)))
           (IPNet.Mask privateSubnet) in
       Ok (mkAllocator uids subnet baseIP availableSubnets minUID maxUID
                       (rand.New w seed)))
  end.

(** One pass through the body of the [for] loop of [allocate]: [None] is
    [continue], [Some r] is [return r]. *)
Definition attempt (a : Allocator) (interval : Z) (w : World)
  : World * Allocator * option (result Z) :=
  match rand.Intn (rng a) interval with
  | Panic m => (w, a, Some (Panic m))
  | Err e => (w, a, Some (Err e))
  | Ok (r, g) =>
      let a := set_rng g a in
      let n := int_add r (minUID a) in
      let file := filepath.Join (uidsDir a) (strconv.Itoa n) in
      (* check if free by optimistically locking this uid *)
      match os.OpenFile_CREATE_EXCL w file with
      | (w, Ok f) =>
          match os.Close w f with
          | (w, Some err) => (w, a, Some (Err err))
          | (w, None) => (w, a, Some (Ok n))
          end
      | (w, _) => (w, a, None)  (* already allocated by someone else *)
      end
  end.

Definition noFreeNumber (numbersDir : string) : error :=
  errorString ("no free number available at " +:+ numbersDir).

(** The loop [for i := 0; i < maxRetries; i++] with [retries] passes left. *)
Fixpoint probe (retries : nat) (a : Allocator) (numbersDir : string)
    (interval : Z) (w : World) : World * Allocator * result Z :=
  match retries with
  | O => (w, a, Err (noFreeNumber numbersDir))
  | S retries' =>
      match attempt a interval w with
      | (w, a, Some r) => (w, a, r)
      | (w, a, None) => probe retries' a numbersDir interval w
      end
  end.

(** [func (a *Allocator) allocate(numbersDir string, min, max int)
    (int, error)]; the integer returned next to an error is -1. *)
Definition allocate (a : Allocator) (numbersDir : string) (min max : Z)
    (w : World) : World * Allocator * result Z :=
  let interval := int_add (int_sub max min) 1 in
  let maxRetries := int_mul 5 interval in
  probe (Z.to_nat maxRetries) a numbersDir interval w.

(** [func (a *Allocator) ReserveUID() (int, error)] *)
Definition ReserveUID (a : Allocator) (w : World)
  : World * Allocator * result Z :=
  allocate a (uidsDir a) (minUID a) (maxUID a) w.

(** [func (a *Allocator) FreeUID(uid int) error] *)
Definition FreeUID (a : Allocator) (uid : Z) (w : World)
  : World * option error :=
  os.Remove w (filepath.Join (uidsDir a) (strconv.Itoa uid)).

(** [func (a *Allocator) privateNetForUID(uid int)], returning [*net.IPNet, error] *)
Definition privateNetForUID (a : Allocator) (uid : Z) : result IPNet.t :=
  if availableSubnets a =? 0
  then Panic "runtime error: integer divide by zero"
  else
    let shift := uint32 (int_sub uid (minUID a)) mod availableSubnets a in
    asInt ← binary.Read_uint32 (net.To4 (IPNet.IP (basePrivateIP a)));
    (* pick a /30 block *)
    let asInt := uint32_shr asInt 2 in
    let asInt := uint32_add asInt shift in
    let asInt := uint32_shl asInt 2 in
    let ip := binary.Write_uint32 asInt in
    if negb (net.Contains (privateSubnet a) ip)
    then Err (OutOfSubnetError ip (privateSubnet a))
    else Ok (IPNet.mk ip (IPNet.Mask (basePrivateIP a))).

(** [SubnetFor] is the specification's name of [privateNetForUID]. *)
Definition SubnetFor := privateNetForUID.

(** ** Concurrent callers of [ReserveUID]

    Independent processes race on one storage directory.  In one pass
    through the loop of [allocate] the only access to shared state that
    another process can observe is the exclusive create, which the file
    system performs atomically; the draw, the path computation and the close
    of the caller's own descriptor are local.  An execution of several
    callers is therefore an interleaving of whole passes ([attempt]), chosen
    by a schedule. *)

Record Caller := mkCaller {
  c_alloc : Allocator;
  c_interval : Z;
  c_retries : nat;
  c_result : option (result Z)
}.

(** A caller entering [ReserveUID]: [interval] and [maxRetries] computed, no
    pass made yet. *)
Definition call_ReserveUID (a : Allocator) : Caller :=
  let interval := int_add (int_sub (maxUID a) (minUID a)) 1 in
  let maxRetries := int_mul 5 interval in
  mkCaller a interval (Z.to_nat maxRetries) None.

(** The next pass of a caller: the loop test, then the body. *)
Definition caller_step (c : Caller) (w : World) : World * Caller :=
  match c_result c with
  | Some _ => (w, c)
  | None =>
      match c_retries c with
      | O =>
          (w, mkCaller (c_alloc c) (c_interval c) O
                (Some (Err (noFreeNumber (uidsDir (c_alloc c))))))
      | S k =>
          match attempt (c_alloc c) (c_interval c) w with
          | (w, a, r) => (w, mkCaller a (c_interval c) k r)
          end
      end
  end.

Record System := mkSystem {
  sys_world : World;
  sys_callers : list Caller
}.

(** The scheduler lets caller [k] make its next pass. *)
Definition sys_step (s : System) (k : nat) : System :=
  match sys_callers s !! k with
  | None => s
  | Some c =>
      let '(w, c') := caller_step c (sys_world s) in
      mkSystem w (<[k := c']> (sys_callers s))
  end.

Definition run (sched : list nat) (s : System) : System :=
  foldl sys_step s sched.

Definition spawn (w : World) (allocs : list Allocator) : System :=
  mkSystem w (call_ReserveUID <$> allocs).

(** What caller [k] has returned, if it has. *)
Definition returned (s : System) (k : nat) : option (result Z) :=
  c ← sys_callers s !! k; c_result c.

Definition all_returned (s : System) : Prop :=
  ∀ k c, sys_callers s !! k = Some c → is_Some (c_result c).

Definition all_succeeded (s : System) : Prop :=
  ∀ k c, sys_callers s !! k = Some c → ∃ n, c_result c = Some (Ok n).

Definition pairwise_distinct (s : System) : Prop :=
  ∀ i j ni nj, i ≠ j →
    returned s i = Some (Ok ni) → returned s j = Some (Ok nj) → ni ≠ nj.

(** No I/O fault is imposed and no marker exists. *)
Definition pristine (w : World) : Prop :=
  w_files w = ∅ ∧ w_dir_fault w = None ∧ w_create_fault w = None ∧
  w_close_fault w = None.

(** ** The derivation in the words of the specification

    The address of an IPv4 anchor as a number, and back. *)

Definition ipv4_to_number (ip : list Z) : Z :=
  match ip with
  | [a; b; c; d] => a * 2 ^ 24 + b * 2 ^ 16 + c * 2 ^ 8 + d
  | _ => 0
  end.

Definition number_to_ipv4 (x : Z) : list Z :=
  [x / 2 ^ 24 mod 256; x / 2 ^ 16 mod 256; x / 2 ^ 8 mod 256; x mod 256].

(** Steps 1, 2 and 4 of the documented algorithm, for a given shift: the
    anchor divided by 4, plus the shift, times 4, with a /30 mask. *)
Definition block_after_anchor (a : Allocator) (shift : Z) : IPNet.t :=
  let anchor := ipv4_to_number (IPNet.IP (basePrivateIP a)) in
  IPNet.mk (number_to_ipv4 ((anchor / 4 + shift) * 4)) [255; 255; 255; 252].

(** The documented algorithm: [shift = (uid - minUID) mod
    availableSubnetCount]. *)
Definition documented_subnet (a : Allocator) (uid : Z) : IPNet.t :=
  block_after_anchor a ((uid - minUID a) mod availableSubnets a).

(** ** Notions used in the statements

    The shift the code computes: the difference is converted to [uint32]
    before the reduction. *)
Definition shift_of (a : Allocator) (uid : Z) : Z :=
  uint32 (int_sub uid (minUID a)) mod availableSubnets a.

(** An address lies in the supernet of prefix length [s] that contains
    [base] when the two agree on their first [s] bits. *)
Definition same_prefix (s : Z) (base addr : Z) : Prop :=
  addr / 2 ^ (32 - s) = base / 2 ^ (32 - s).

(** An IPv4 address in 4-byte form. *)
Definition is_ipv4 (ip : list Z) : bool :=
  Nat.eqb (length ip) 4 && is_bytes ip.

(** ** Observations on a run *)

Definition is_open (c : Syscall) : bool :=
  match c with SysOpenExcl _ => true | _ => false end.

(** The number of exclusive-create attempts made so far. *)
Definition open_attempts (w : World) : nat :=
  length (List.filter is_open (w_trace w)).

(** The marker of a uid in a storage directory. *)
Definition marker (dir : string) (n : Z) : string :=
  filepath.Join dir (strconv.Itoa n).

(** Every uid of the allocator's range is reserved. *)
Definition fully_reserved (a : Allocator) (w : World) : Prop :=
  ∀ n, minUID a <= n <= maxUID a → marker (uidsDir a) n ∈ w_files w.

(** The bounds are Go [int]s and the retry budget does not overflow. *)
Definition sane_bounds (a : Allocator) : Prop :=
  - 2 ^ 63 <= minUID a ∧ minUID a <= maxUID a ∧ maxUID a < 2 ^ 63 ∧
  5 * (maxUID a - minUID a + 1) < 2 ^ 63.

(** ** Outcomes of passes and calls *)

(** What one pass can do. *)
Inductive pass_outcome (a : Allocator) (w : World)
  : World -> Allocator -> option (result Z) -> Prop :=
| pass_panic w' a' m :
    w' = w -> a' = a ->
    pass_outcome a w w' a' (Some (Panic m))
| pass_collision w' a' :
    w_files w' = w_files w ->
    open_attempts w' = S (open_attempts w) ->
    pass_outcome a w w' a' None
| pass_claimed w' a' n :
    marker (uidsDir a) n ∉ w_files w ->
    w_files w' = {[marker (uidsDir a) n]} ∪ w_files w ->
    open_attempts w' = S (open_attempts w) ->
    pass_outcome a w w' a' (Some (Ok n))
| pass_close_failed w' a' n e :
    marker (uidsDir a) n ∉ w_files w ->
    w_files w' = {[marker (uidsDir a) n]} ∪ w_files w ->
    open_attempts w' = S (open_attempts w) ->
    pass_outcome a w w' a'
      (Some (Err (PathError "close" (marker (uidsDir a) n) e))).

(** The exclusive create of every candidate of the interval is refused: by
    a fault of the directory, by a fault on creation, or because every
    candidate has its marker. *)
Definition refused (a : Allocator) (interval : Z) (w : World) : Prop :=
  w_dir_fault w <> None \/ w_create_fault w <> None \/
  forall k, 0 <= k < interval ->
            marker (uidsDir a) (int_add k (minUID a)) ∈ w_files w.

(** How a call of [allocate] can end: it created the marker of one uid and
    returned the uid or the error of the close, or every one of its
    [budget] attempts was refused and nothing was created. *)
Inductive call_outcome (a : Allocator) (dir : string) (budget : nat)
    (w w' : World) : result Z -> Prop :=
| call_claimed n :
    marker (uidsDir a) n ∉ w_files w ->
    w_files w' = {[marker (uidsDir a) n]} ∪ w_files w ->
    call_outcome a dir budget w w' (Ok n)
| call_close_failed n e :
    marker (uidsDir a) n ∉ w_files w ->
    w_files w' = {[marker (uidsDir a) n]} ∪ w_files w ->
    call_outcome a dir budget w w'
      (Err (PathError "close" (marker (uidsDir a) n) e))
| call_exhausted :
    open_attempts w' = (open_attempts w + budget)%nat ->
    w_files w' = w_files w ->
    call_outcome a dir budget w w' (Err (noFreeNumber dir)).

(** The invariant of a concurrent run in directory [d]: every caller works
    in [d], every uid a caller returned has its marker, and the uids
    returned are pairwise distinct. *)
Definition claims_ok (d : string) (s : System) : Prop :=
  (forall k c, sys_callers s !! k = Some c -> uidsDir (c_alloc c) = d) /\
  (forall k c n, sys_callers s !! k = Some c -> c_result c = Some (Ok n) ->
                 marker d n ∈ w_files (sys_world s)) /\
  pairwise_distinct s.

(** ** Example configurations *)

(** Nothing exists, nothing fails; the generator started from [seed] emits
    [draws], then zeros. *)
Definition quiet_world (draws : list Z) : World :=
  mkWorld ∅ None None None None (Some 7)
          (fun _ i => default 0 (draws !! i)) [].

Definition newAllocator (w : World) (subnet : IPNet.t) (min max : Z)
  : result Allocator :=
  snd (NewAllocator w "/var/hsup" subnet min max).

(** The allocator of the default configuration with uids 0 to 9, as
    [NewAllocator] builds it in a quiet world. *)
Definition default_allocator : Allocator :=
  mkAllocator "/var/hsup/uids"
    (IPNet.mk [172; 16; 0; 0] [255; 240; 0; 0])
    (IPNet.mk [172; 16; 0; 28] [255; 255; 255; 252])
    262137 0 9 (rand.New (quiet_world []) 7).

(** A block too small to hold a /30 subnet. *)
Definition slash31 : IPNet.t :=
  IPNet.mk [172; 16; 0; 28] (net.CIDRMask 31 32).

(** A block whose mask is not a prefix. *)
Definition striped : IPNet.t := IPNet.mk [10; 0; 0; 0] [255; 0; 255; 0].

Definition striped_allocator : Allocator :=
  mkAllocator "/var/hsup/uids"
    (IPNet.mk [10; 0; 0; 0] [255; 0; 255; 0])
    (IPNet.mk [10; 0; 0; 0] [255; 255; 255; 252])
    1031798784 0 99 (rand.New (quiet_world []) 7).

(** The storage directory cannot be written: every creation of a new entry
    is refused with EACCES. *)
Definition readonly_world : World :=
  mkWorld ∅ None (Some EACCES) None None (Some 7) (fun _ _ => 0) [].

(** Two uids, 0 and 1. *)
Definition pair_allocator (g : rand.Rand) : Allocator :=
  mkAllocator "/var/hsup/uids"
    (IPNet.mk [172; 16; 0; 0] [255; 240; 0; 0])
    (IPNet.mk [172; 16; 0; 28] [255; 255; 255; 252])
    262137 0 1 g.

(** A world whose generator draws 0 ten times, then 1, and the generator a
    process gets in it. *)
Definition unlucky_world : World := quiet_world (replicate 10 0 ++ [1]).
Definition unlucky : rand.Rand := rand.New unlucky_world 7.

(** The first caller makes one pass, then the second makes eleven. *)
Definition one_then_other : list nat := 0%nat :: replicate 11 1%nat.

(** Both uids of [pair_allocator] are reserved. *)
Definition full_world : World :=
  mkWorld ({["/var/hsup/uids/0"]} ∪ {["/var/hsup/uids/1"]})
          None None None None (Some 7) (fun _ _ => 0) [].

(** ** Notions used in the further properties *)

(** The environment imposes no I/O fault on the storage directory. *)
Definition no_faults (w : World) : Prop :=
  w_dir_fault w = None ∧ w_create_fault w = None ∧ w_close_fault w = None.

(** The allocator after [k] more draws of its generator. *)
Definition advance (k : nat) (a : Allocator) : Allocator :=
  set_rng (rand.mk (rand.src (rng a)) (rand.pos (rng a) + k)) a.

(** The uid that the [i]-th next pass of the loop of [allocate] draws. *)
Definition candidate (a : Allocator) (interval : Z) (i : nat) : Z :=
  int_add (rand.src (rng a) (rand.pos (rng a) + i)%nat mod interval)
          (minUID a).

(** The number of uids of the range, [interval] in [allocate]. *)
Definition interval_of (a : Allocator) : Z := maxUID a - minUID a + 1.

(** The first address of the block of prefix length [s] that holds
    [addr]. *)
Definition supernet_base (s : Z) (addr : Z) : Z :=
  addr / 2 ^ (32 - s) * 2 ^ (32 - s).

(** A world without faults in which the uids [uids] of the directory
    /var/hsup/uids are reserved, and closing a descriptor fails with
    [close] when given. *)
Definition reserved_world (uids : list Z) (close : option Errno) : World :=
  mkWorld (list_to_set (marker "/var/hsup/uids" <$> uids))
          None None close None (Some 7) (fun _ _ => 0) [].

(** The allocator of uids 0 and 1 whose generator draws [draws], then
    zeros. *)
Definition pair_drawing (draws : list Z) : Allocator :=
  pair_allocator (rand.New (quiet_world draws) 7).

(** An allocator for the single uid 3, and one for the empty range from 5
    down to 4. *)
Definition single_allocator : Allocator :=
  mkAllocator "/var/hsup/uids"
    (IPNet.mk [172; 16; 0; 0] [255; 240; 0; 0])
    (IPNet.mk [172; 16; 0; 28] [255; 255; 255; 252])
    262137 3 3 (rand.New (quiet_world [5; 7]) 7).

Definition empty_allocator : Allocator :=
  mkAllocator "/var/hsup/uids"
    (IPNet.mk [172; 16; 0; 0] [255; 240; 0; 0])
    (IPNet.mk [172; 16; 0; 28] [255; 255; 255; 252])
    262137 5 4 (rand.New (quiet_world []) 7).

(** The uids that the callers of a system have been granted so far. *)
Definition granted_uid (c : Caller) : option Z :=
  match c_result c with
  | Some (Ok n) => Some n
  | _ => None
  end.

Definition granted (s : System) : list Z := omap granted_uid (sys_callers s).

(** The invariant of a concurrent run of callers that share the directory
    [d] and the range from [lo] to [hi], started in a world with the files
    [before]: the uids granted are pairwise distinct uids of the range,
    their markers exist and did not exist at the start. *)
Definition grants_ok (d : string) (lo hi : Z) (before : gset string)
    (s : System) : Prop :=
  Forall (fun c => uidsDir (c_alloc c) = d /\ minUID (c_alloc c) = lo /\
                   c_interval c = hi - lo + 1) (sys_callers s) /\
  before ⊆ w_files (sys_world s) /\
  NoDup (granted s) /\
  Forall (fun n => lo <= n <= hi /\ marker d n ∈ w_files (sys_world s) /\
                   marker d n ∉ before) (granted s).

(** * Properties *)

(** ** Machine integers and addresses *)

Lemma uint32_range z : 0 <= uint32 z < 2 ^ 32.
Proof. unfold uint32. apply Z.mod_pos_bound. lia. Qed.

Lemma uint32_small z : 0 <= z < 2 ^ 32 -> uint32 z = z.
Proof. intros. unfold uint32. apply Z.mod_small. lia. Qed.

Lemma int_wrap_small z : - 2 ^ 63 <= z < 2 ^ 63 -> int_wrap z = z.
Proof. intros. unfold int_wrap. rewrite Z.mod_small; lia. Qed.

Lemma uint32_int_wrap z : uint32 (int_wrap z) = z mod 2 ^ 32.
Proof.
  unfold uint32, int_wrap.
  rewrite (Z.mod_eq (z + 2 ^ 63) (2 ^ 64)) by lia.
  replace (z + 2 ^ 63 - 2 ^ 64 * ((z + 2 ^ 63) / 2 ^ 64) - 2 ^ 63)
    with (z + (- (2 ^ 32 * ((z + 2 ^ 63) / 2 ^ 64))) * 2 ^ 32) by lia.
  apply Z.mod_add. lia.
Qed.

Lemma is_byte_range b : is_byte b = true <-> 0 <= b < 256.
Proof. unfold is_byte. rewrite andb_true_iff, Z.leb_le, Z.ltb_lt. tauto. Qed.

Lemma is_bytes_4 a b c d :
  is_bytes [a; b; c; d] = true <->
  0 <= a < 256 /\ 0 <= b < 256 /\ 0 <= c < 256 /\ 0 <= d < 256.
Proof.
  unfold is_bytes; simpl. rewrite !andb_true_iff, !is_byte_range. tauto.
Qed.

Lemma lor_shifted a b k :
  0 <= k -> 0 <= b < 2 ^ k -> Z.lor b (a * 2 ^ k) = a * 2 ^ k + b.
Proof.
  intros Hk Hb.
  assert (Hdisj : Z.land (a * 2 ^ k) b = 0).
  { apply Z.bits_inj'; intros n Hn. rewrite Z.land_spec, Z.bits_0.
    destruct (Z.lt_ge_cases n k).
    - rewrite Z.mul_pow2_bits_low by lia. reflexivity.
    - rewrite <- (Z.mod_small b (2 ^ k)) by lia.
      rewrite Z.mod_pow2_bits_high by lia. apply andb_false_r. }
  rewrite Z.lor_comm, <- Z.lxor_lor, <- Z.add_nocarry_lxor; auto.
Qed.

Lemma BigEndian_Uint32_number b0 b1 b2 b3 :
  is_bytes [b0; b1; b2; b3] = true ->
  binary.BigEndian_Uint32 b0 b1 b2 b3 = ipv4_to_number [b0; b1; b2; b3].
Proof.
  rewrite is_bytes_4. intros (H0 & H1 & H2 & H3).
  unfold binary.BigEndian_Uint32, ipv4_to_number.
  rewrite !Z.shiftl_mul_pow2 by lia.
  rewrite (lor_shifted b2 b3 8) by lia.
  rewrite (lor_shifted b1 _ 16) by lia.
  rewrite (lor_shifted b0 _ 24) by lia.
  lia.
Qed.

Lemma ipv4_to_number_range ip :
  is_ipv4 ip = true -> 0 <= ipv4_to_number ip < 2 ^ 32.
Proof.
  unfold is_ipv4. rewrite andb_true_iff, Nat.eqb_eq. intros [Hl Hb].
  do 5 (destruct ip as [|? ip]; try discriminate).
  apply is_bytes_4 in Hb. simpl. lia.
Qed.

Lemma Write_uint32_number v : binary.Write_uint32 v = number_to_ipv4 v.
Proof.
  unfold binary.Write_uint32, number_to_ipv4, to_byte.
  rewrite !Z.shiftr_div_pow2 by lia. reflexivity.
Qed.

Lemma number_to_ipv4_is_ipv4 v : is_ipv4 (number_to_ipv4 v) = true.
Proof.
  unfold is_ipv4, number_to_ipv4. simpl. apply is_bytes_4.
  repeat split; try apply Z.mod_pos_bound; lia.
Qed.

Lemma ipv4_number_roundtrip v :
  0 <= v < 2 ^ 32 -> ipv4_to_number (number_to_ipv4 v) = v.
Proof.
  intros Hv. unfold ipv4_to_number, number_to_ipv4.
  Z.to_euclidean_division_equations. lia.
Qed.

Lemma number_to_ipv4_inj u v :
  0 <= u < 2 ^ 32 -> 0 <= v < 2 ^ 32 ->
  number_to_ipv4 u = number_to_ipv4 v -> u = v.
Proof.
  intros Hu Hv E. apply (f_equal ipv4_to_number) in E.
  rewrite !ipv4_number_roundtrip in E; auto.
Qed.

Lemma Read_uint32_ipv4 ip :
  is_ipv4 ip = true -> binary.Read_uint32 ip = Ok (ipv4_to_number ip).
Proof.
  intros H. pose proof H as H'. unfold is_ipv4 in H'.
  rewrite andb_true_iff, Nat.eqb_eq in H'. destruct H' as [Hl Hb].
  do 5 (destruct ip as [|? ip]; try discriminate).
  simpl. f_equal. apply BigEndian_Uint32_number; auto.
Qed.

(** *** Accounting *)

Lemma cut_prefix B s :
  0 <= B < 2 ^ 32 -> 0 <= s <= 32 ->
  uint32_shr (uint32_shl B (uint32 s)) (uint32 s) = B mod 2 ^ (32 - s).
Proof.
  intros HB Hs. rewrite (uint32_small s) by lia.
  unfold uint32_shr, uint32_shl.
  destruct (Z.leb_spec 32 s) as [Hge|Hlt].
  - replace (32 - s) with 0 by lia. rewrite Z.pow_0_r, Z.mod_1_r. reflexivity.
  - unfold uint32. rewrite Z.shiftl_mul_pow2, Z.shiftr_div_pow2 by lia.
    replace (2 ^ 32) with (2 ^ (32 - s) * 2 ^ s)
      by (rewrite <- Z.pow_add_r by lia; f_equal; lia).
    rewrite Z.mul_mod_distr_r by lia.
    apply Z.div_mul. lia.
Qed.

Lemma subnetsToSkip_number ip s :
  is_ipv4 ip = true -> 0 <= s <= 32 ->
  subnetsToSkip ip s = Ok (ipv4_to_number ip mod 2 ^ (32 - s) / 4).
Proof.
  intros Hip Hs. unfold subnetsToSkip.
  rewrite Read_uint32_ipv4 by assumption. simpl.
  rewrite cut_prefix by (auto using ipv4_to_number_range).
  unfold uint32_shr. simpl. rewrite Z.shiftr_div_pow2 by lia. reflexivity.
Qed.

Lemma skipped_blocks_bound B s :
  0 <= B -> 0 <= s <= 30 ->
  B mod 2 ^ (32 - s) / 4 = (B / 4) mod 2 ^ (30 - s) /\
  0 <= B mod 2 ^ (32 - s) / 4 < 2 ^ (30 - s).
Proof.
  intros HB Hs.
  replace (32 - s) with (2 + (30 - s)) by lia.
  rewrite Z.pow_add_r by lia. change (2 ^ 2) with 4.
  assert (HK : 0 < 2 ^ (30 - s)) by (apply Z.pow_pos_nonneg; lia).
  rewrite Z.rem_mul_r by lia.
  split.
  - rewrite Z.mul_comm, Z.div_add by lia.
    rewrite (Z.div_small (B mod 4) 4) by (apply Z.mod_pos_bound; lia). lia.
  - pose proof (Z.mod_pos_bound B 4). pose proof (Z.mod_pos_bound (B / 4) (2 ^ (30 - s))).
    split; [apply Z.div_pos; nia|]. apply Z.div_lt_upper_bound; nia.
Qed.

(** *** Masks and address forms *)

Lemma range_check (P : Z -> bool) lo n :
  forallb P (seqZ lo n) = true -> forall s, lo <= s < lo + n -> P s = true.
Proof.
  intros H s Hs. rewrite forallb_forall in H. apply H.
  apply list_elem_of_In, elem_of_seqZ. exact Hs.
Qed.

Lemma Size_CIDRMask s :
  0 <= s <= 32 -> net.Size (net.CIDRMask s 32) = (s, 32).
Proof.
  intros Hs.
  pose proof (range_check
    (fun s => bool_decide (net.Size (net.CIDRMask s 32) = (s, 32))) 0 33) as H.
  specialize (H ltac:(vm_compute; reflexivity) s ltac:(lia)).
  apply bool_decide_eq_true in H. exact H.
Qed.

Lemma CIDRMask_number s :
  0 <= s <= 32 ->
  net.CIDRMask s 32 = number_to_ipv4 (2 ^ 32 - 2 ^ (32 - s)).
Proof.
  intros Hs.
  pose proof (range_check
    (fun s => bool_decide
       (net.CIDRMask s 32 = number_to_ipv4 (2 ^ 32 - 2 ^ (32 - s)))) 0 33) as H.
  specialize (H ltac:(vm_compute; reflexivity) s ltac:(lia)).
  apply bool_decide_eq_true in H. exact H.
Qed.

Lemma countOnes_ge fuel n v : n <= fst (net.countOnes fuel n v).
Proof.
  revert n v. induction fuel as [|fuel IH]; intros n v; simpl; [lia|].
  destruct (negb (Z.land v 128 =? 0)); simpl; [|lia].
  specialize (IH (n + 1) (to_byte (Z.shiftl v 1))). lia.
Qed.

Lemma simpleMaskLength_from_ge n m :
  net.simpleMaskLength_from n m = -1 \/ n <= net.simpleMaskLength_from n m.
Proof.
  revert n. induction m as [|v rest IH]; intros n;
    cbn [net.simpleMaskLength_from]; [lia|].
  destruct (v =? 255).
  - destruct (IH (n + 8)); lia.
  - pose proof (countOnes_ge 8 n v) as Hc.
    destruct (net.countOnes 8 n v) as [n' v']. simpl in Hc.
    destruct (negb (v' =? 0)); [lia|]. destruct (net.isZeros rest); lia.
Qed.

Lemma Size_nonneg m : 0 <= fst (net.Size m).
Proof.
  unfold net.Size, net.simpleMaskLength.
  destruct (simpleMaskLength_from_ge 0 m) as [E|E].
  - rewrite E. simpl. lia.
  - destruct (Z.eqb_spec (net.simpleMaskLength_from 0 m) (-1)); simpl; lia.
Qed.

Lemma is_bytes_Forall l : is_bytes l = true <-> Forall (fun b => is_byte b) l.
Proof.
  unfold is_bytes. rewrite <- forallb_True. symmetry. apply Is_true_true.
Qed.

Lemma To4_forms ip :
  net.To4 ip = [] \/ (length (net.To4 ip) = 4%nat /\
                      (net.To4 ip = ip \/ net.To4 ip = take 4 (drop 12 ip))).
Proof.
  unfold net.To4.
  destruct (Nat.eqb_spec (length ip) net.IPv4len) as [E|_]; [right; auto|].
  destruct (Nat.eqb_spec (length ip) net.IPv6len) as [E|_]; simpl; [|left; auto].
  match goal with |- context [if ?c then _ else _] => destruct c end;
    [right|left; auto].
  split; [|auto]. rewrite length_take, length_drop, E. reflexivity.
Qed.

Lemma To4_is_ipv4 ip :
  is_bytes ip = true -> net.To4 ip = [] \/ is_ipv4 (net.To4 ip) = true.
Proof.
  intros Hb. destruct (To4_forms ip) as [E|[Hl Hf]]; [left; exact E|right].
  unfold is_ipv4. rewrite Hl. simpl.
  destruct Hf as [-> | ->]; [exact Hb|].
  apply is_bytes_Forall, Forall_take, Forall_drop, is_bytes_Forall, Hb.
Qed.

Lemma To4_length4 ip : length ip = 4%nat -> net.To4 ip = ip.
Proof. intros Hl. unfold net.To4. rewrite Hl. reflexivity. Qed.

Lemma is_ipv4_length ip : is_ipv4 ip = true -> length ip = 4%nat.
Proof.
  unfold is_ipv4. rewrite andb_true_iff, Nat.eqb_eq. intros [Hl _]. exact Hl.
Qed.

Lemma To4_ipv4 ip : is_ipv4 ip = true -> net.To4 ip = ip.
Proof. intros H. apply To4_length4, is_ipv4_length, H. Qed.

(** *** What [NewAllocator] builds *)

Lemma available_formula B s :
  0 <= B < 2 ^ 32 -> 0 <= s <= 32 ->
  uint32_sub (uint32_Pow2 (int_sub 30 s)) (B mod 2 ^ (32 - s) / 4)
  = 2 ^ (30 - s) - B mod 2 ^ (32 - s) / 4.
Proof.
  intros HB Hs. unfold int_sub. rewrite int_wrap_small by lia.
  unfold uint32_Pow2, uint32_sub.
  destruct (Z.ltb_spec (30 - s) 0) as [Hneg|Hpos].
  - rewrite (Z.pow_neg_r 2 (30 - s)) by lia.
    assert (E : B mod 2 ^ (32 - s) / 4 = 0).
    { apply Z.div_small.
      assert (s = 31 \/ s = 32) as [-> | ->] by lia.
      - change (2 ^ (32 - 31)) with 2. pose proof (Z.mod_pos_bound B 2). lia.
      - change (2 ^ (32 - 32)) with 1. rewrite Z.mod_1_r. lia. }
    rewrite E. reflexivity.
  - destruct (Z.ltb_spec (30 - s) 32); [|lia].
    destruct (skipped_blocks_bound B s) as [_ Hb]; [lia..|].
    apply uint32_small.
    assert (2 ^ (30 - s) <= 2 ^ 30) by (apply Z.pow_le_mono_r; lia). lia.
Qed.

Lemma NewAllocator_Ok w workDir subnet min max a :
  is_bytes (IPNet.IP subnet) = true ->
  snd (NewAllocator w workDir subnet min max) = Ok a ->
  let s := fst (net.Size (IPNet.Mask subnet)) in
  let anchor := net.To4 (IPNet.IP subnet) in
  is_ipv4 anchor = true /\
  uidsDir a = filepath.Join workDir "uids" /\
  privateSubnet a =
    IPNet.mk (net.To4 (net.Mask (IPNet.IP subnet) (IPNet.Mask subnet)))
             (IPNet.Mask subnet) /\
  basePrivateIP a = IPNet.mk anchor [255; 255; 255; 252] /\
  minUID a = min /\ maxUID a = max /\
  (s <= 32 ->
   availableSubnets a =
     2 ^ (30 - s) - ipv4_to_number anchor mod 2 ^ (32 - s) / 4).
Proof.
  intros Hb H s anchor. unfold NewAllocator in H.
  destruct (os.MkdirAll w (filepath.Join workDir "uids")) as [w' [err|]];
    [discriminate|]. cbn [snd] in H.
  destruct (crand.Int w' math_MaxInt64) as [seed| |]; try discriminate.
  cbn [mbind result_bind] in H. fold s anchor in H.
  destruct (To4_is_ipv4 _ Hb) as [E|Hip].
  - fold anchor in E. rewrite E in H. discriminate.
  - fold anchor in Hip.
    destruct (Z.le_gt_cases s 32) as [Hs|Hs].
    + rewrite subnetsToSkip_number in H
        by first [assumption | split; [apply Size_nonneg | exact Hs]].
      cbn [mbind result_bind] in H.
      rewrite available_formula in H
        by first [apply ipv4_to_number_range; assumption
                 | split; [apply Size_nonneg | exact Hs]].
      injection H as <-. cbn. repeat (split; [reflexivity || assumption|]).
      intros _. reflexivity.
    + destruct (subnetsToSkip anchor s) as [k| |]; try discriminate.
      cbn [mbind result_bind] in H. injection H as <-. cbn.
      repeat (split; [reflexivity || assumption|]). lia.
Qed.

(** *** The derivation *)

Lemma pow2_split s :
  0 <= s <= 30 ->
  0 < 2 ^ (30 - s) /\ 2 ^ (32 - s) = 4 * 2 ^ (30 - s) /\
  2 ^ 30 = 2 ^ s * 2 ^ (30 - s) /\ 0 < 2 ^ s.
Proof.
  intros Hs. repeat split.
  - apply Z.pow_pos_nonneg; lia.
  - replace (32 - s) with (2 + (30 - s)) by lia.
    rewrite Z.pow_add_r by lia. reflexivity.
  - rewrite <- Z.pow_add_r by lia. f_equal. lia.
  - apply Z.pow_pos_nonneg; lia.
Qed.

Lemma derive_no_wrap B s shift :
  0 <= B < 2 ^ 32 -> 0 <= s <= 30 ->
  0 <= shift < 2 ^ (30 - s) - B mod 2 ^ (32 - s) / 4 ->
  uint32_shl (uint32_add (uint32_shr B 2) shift) 2 = (B / 4 + shift) * 4 /\
  0 <= (B / 4 + shift) * 4 < 2 ^ 32 /\
  same_prefix s B ((B / 4 + shift) * 4).
Proof.
  intros HB Hs Hshift.
  destruct (pow2_split s Hs) as (HK & H32 & H30 & H2s).
  destruct (skipped_blocks_bound B s) as [Hr _]; [lia..|].
  rewrite Hr in Hshift.
  set (K := 2 ^ (30 - s)) in *.
  assert (Hq : 0 <= B / 4 < 2 ^ 30).
  { split; [apply Z.div_pos; lia | apply Z.div_lt_upper_bound; lia]. }
  pose proof (Z.div_mod (B / 4) K ltac:(lia)) as Hdm.
  pose proof (Z.mod_pos_bound (B / 4) K HK) as Hm.
  set (P := B / 4 / K) in *. set (r := (B / 4) mod K) in *.
  assert (HP : 0 <= P < 2 ^ s).
  { split; [apply Z.div_pos; lia|]. apply Z.div_lt_upper_bound; lia. }
  assert (Hsum : 0 <= B / 4 + shift < 2 ^ 30) by nia.
  split; [|split].
  - unfold uint32_shl, uint32_add, uint32_shr. simpl.
    rewrite Z.shiftr_div_pow2 by lia. change (2 ^ 2) with 4.
    rewrite (uint32_small (B / 4 + shift)) by lia.
    rewrite Z.shiftl_mul_pow2 by lia. change (2 ^ 2) with 4.
    apply uint32_small. lia.
  - lia.
  - unfold same_prefix. rewrite H32. fold K.
    rewrite <- (Z.div_div B 4 K) by lia. fold P.
    rewrite (Z.mul_comm 4 K), Z.div_mul_cancel_r by lia.
    replace (B / 4 + shift) with (r + shift + P * K) by lia.
    rewrite Z.div_add by lia. rewrite (Z.div_small (r + shift)) by lia. lia.
Qed.

Lemma available_positive B s :
  0 <= B < 2 ^ 32 -> 0 <= s <= 30 ->
  1 <= 2 ^ (30 - s) - B mod 2 ^ (32 - s) / 4 <= 2 ^ (30 - s).
Proof.
  intros HB Hs. destruct (skipped_blocks_bound B s) as [_ Hb]; [lia..|]. lia.
Qed.

Lemma available_zero B s :
  0 <= B < 2 ^ 32 -> 30 < s <= 32 ->
  2 ^ (30 - s) - B mod 2 ^ (32 - s) / 4 = 0.
Proof.
  intros HB Hs. rewrite <- available_formula by lia.
  unfold int_sub. rewrite int_wrap_small by lia.
  unfold uint32_Pow2, uint32_sub.
  destruct (Z.ltb_spec (30 - s) 0); [|lia].
  assert (E : B mod 2 ^ (32 - s) / 4 = 0).
  { apply Z.div_small.
    assert (s = 31 \/ s = 32) as [-> | ->] by lia.
    - change (2 ^ (32 - 31)) with 2. pose proof (Z.mod_pos_bound B 2). lia.
    - change (2 ^ (32 - 32)) with 1. rewrite Z.mod_1_r. lia. }
  rewrite E. reflexivity.
Qed.

Lemma shift_of_range a uid :
  0 < availableSubnets a -> 0 <= shift_of a uid < availableSubnets a.
Proof. intros H. unfold shift_of. apply Z.mod_pos_bound. exact H. Qed.

Lemma shift_of_in_range a uid :
  minUID a <= uid < minUID a + 2 ^ 32 ->
  shift_of a uid = (uid - minUID a) mod availableSubnets a.
Proof.
  intros H. unfold shift_of, int_sub. rewrite uint32_int_wrap.
  rewrite (Z.mod_small (uid - minUID a) (2 ^ 32)) by lia. reflexivity.
Qed.

Section Built.
Context (w : World) (workDir : string) (subnet : IPNet.t) (min max : Z).
Context (a : Allocator).
Hypothesis Hbytes : is_bytes (IPNet.IP subnet) = true.
Hypothesis Hnew : snd (NewAllocator w workDir subnet min max) = Ok a.

Local Abbreviation s := (fst (net.Size (IPNet.Mask subnet))).
Local Abbreviation anchor := (net.To4 (IPNet.IP subnet)).
Local Abbreviation B := (ipv4_to_number anchor).

Lemma built_anchor : is_ipv4 anchor = true /\ 0 <= B < 2 ^ 32.
Proof.
  destruct (NewAllocator_Ok _ _ _ _ _ _ Hbytes Hnew) as (Hip & _).
  split; [exact Hip | apply ipv4_to_number_range, Hip].
Qed.

Lemma built_available :
  s <= 32 ->
  availableSubnets a = 2 ^ (30 - s) - B mod 2 ^ (32 - s) / 4.
Proof.
  destruct (NewAllocator_Ok _ _ _ _ _ _ Hbytes Hnew) as (_&_&_&_&_&_&H).
  exact H.
Qed.

Lemma built_available_range :
  s <= 30 -> 1 <= availableSubnets a <= 2 ^ (30 - s).
Proof.
  intros Hs. rewrite built_available by lia.
  apply available_positive; [apply built_anchor|].
  split; [apply Size_nonneg | exact Hs].
Qed.

Lemma built_derivation uid :
  s <= 30 ->
  let R := (B / 4 + shift_of a uid) * 4 in
  0 <= R < 2 ^ 32 /\ same_prefix s B R /\
  privateNetForUID a uid =
    if net.Contains (privateSubnet a) (number_to_ipv4 R)
    then Ok (block_after_anchor a (shift_of a uid))
    else Err (OutOfSubnetError (number_to_ipv4 R) (privateSubnet a)).
Proof.
  intros Hs R.
  destruct (NewAllocator_Ok _ _ _ _ _ _ Hbytes Hnew)
    as (Hip & _ & _ & Hbase & _ & _ & _).
  fold anchor in Hip, Hbase.
  pose proof built_available_range Hs as Hav.
  pose proof (shift_of_range a uid ltac:(lia)) as Hsh.
  assert (Hs' : 0 <= s <= 30) by (split; [apply Size_nonneg | exact Hs]).
  destruct (derive_no_wrap B s (shift_of a uid)) as (Hw & HR & Hp);
    [apply built_anchor | exact Hs' | |].
  { rewrite <- built_available by lia. exact Hsh. }
  split; [exact HR|]. split; [exact Hp|].
  unfold privateNetForUID.
  destruct (Z.eqb_spec (availableSubnets a) 0) as [E|_]; [lia|].
  rewrite Hbase. cbn [IPNet.IP IPNet.Mask].
  rewrite (To4_ipv4 _ Hip), (Read_uint32_ipv4 _ Hip).
  cbn [mbind result_bind]. fold B. fold (shift_of a uid).
  rewrite Hw, Write_uint32_number. fold R.
  unfold block_after_anchor. rewrite Hbase. cbn [IPNet.IP]. fold B R.
  destruct (net.Contains (privateSubnet a) (number_to_ipv4 R)); reflexivity.
Qed.

End Built.

(** *** Containment, byte by byte and as a prefix *)

Lemma ipv4_number_back ip :
  is_ipv4 ip = true -> number_to_ipv4 (ipv4_to_number ip) = ip.
Proof.
  unfold is_ipv4. rewrite andb_true_iff, Nat.eqb_eq. intros [Hl Hb].
  do 5 (destruct ip as [|? ip]; try discriminate).
  apply is_bytes_4 in Hb. unfold ipv4_to_number, number_to_ipv4.
  repeat f_equal; Z.to_euclidean_division_equations; lia.
Qed.

Lemma byte_of_land X M k :
  0 <= k ->
  Z.land (X / 2 ^ k mod 256) (M / 2 ^ k mod 256) = Z.land X M / 2 ^ k mod 256.
Proof.
  intros Hk. change 256 with (2 ^ 8).
  rewrite <- !Z.shiftr_div_pow2, <- !Z.land_ones by lia.
  rewrite Z.shiftr_land.
  apply Z.bits_inj'; intros n Hn. rewrite !Z.land_spec.
  destruct (Z.testbit (Z.shiftr X k) n), (Z.testbit (Z.shiftr M k) n),
    (Z.testbit (Z.ones 8) n); reflexivity.
Qed.

Lemma zip_land_number X M :
  zip_with Z.land (number_to_ipv4 X) (number_to_ipv4 M)
  = number_to_ipv4 (Z.land X M).
Proof.
  unfold number_to_ipv4. cbn [zip_with].
  rewrite !byte_of_land by lia.
  replace (X mod 256) with (X / 2 ^ 0 mod 256) by (f_equal; apply Z.div_1_r).
  replace (M mod 256) with (M / 2 ^ 0 mod 256) by (f_equal; apply Z.div_1_r).
  rewrite byte_of_land by lia. rewrite Z.div_1_r. reflexivity.
Qed.

Lemma sameNetwork_refl_masked nn m x :
  zip_with Z.land nn m = zip_with Z.land x m ->
  length nn = length m -> length x = length m ->
  net.sameNetwork nn m x = true.
Proof.
  revert m x. induction nn as [|n nn IH]; intros [|k m] [|y x] E Hn Hx;
    try discriminate; try reflexivity.
  cbn [zip_with] in E. injection E as E1 E2. cbn [net.sameNetwork].
  rewrite E1, Z.eqb_refl. cbn [negb]. apply IH; auto.
Qed.

Lemma zip_land_idem (x m : list Z) :
  zip_with Z.land (zip_with Z.land x m) m = zip_with Z.land x m.
Proof.
  revert m. induction x as [|b x IH]; intros [|k m]; cbn [zip_with];
    try reflexivity.
  rewrite <- Z.land_assoc, Z.land_diag, IH. reflexivity.
Qed.

Lemma Contains_ipv4 nn m x :
  length nn = 4%nat -> length m = 4%nat -> length x = 4%nat ->
  net.Contains (IPNet.mk nn m) x = net.sameNetwork nn m x.
Proof.
  intros Hn Hm Hx.
  do 5 (destruct nn as [|? nn]; try discriminate).
  do 5 (destruct m as [|? m]; try discriminate).
  do 5 (destruct x as [|? x]; try discriminate).
  reflexivity.
Qed.

Lemma length_number_to_ipv4 v : length (number_to_ipv4 v) = 4%nat.
Proof. reflexivity. Qed.

Lemma prefix_mask_land s B R :
  0 <= s <= 32 -> same_prefix s B R ->
  Z.land B (2 ^ 32 - 2 ^ (32 - s)) = Z.land R (2 ^ 32 - 2 ^ (32 - s)).
Proof.
  intros Hs Hp. unfold same_prefix in Hp.
  replace (2 ^ 32 - 2 ^ (32 - s)) with ((2 ^ s - 1) * 2 ^ (32 - s)).
  2:{ rewrite Z.mul_sub_distr_r, <- Z.pow_add_r by lia.
      replace (s + (32 - s)) with 32 by lia. lia. }
  apply Z.bits_inj'; intros n Hn. rewrite !Z.land_spec.
  destruct (Z.lt_ge_cases n (32 - s)).
  - rewrite Z.mul_pow2_bits_low by lia. rewrite !andb_false_r. reflexivity.
  - f_equal.
    replace n with (n - (32 - s) + (32 - s)) by lia.
    rewrite <- !Z.div_pow2_bits by lia. rewrite Hp. reflexivity.
Qed.

Lemma Mask_To4 ip mask :
  net.To4 ip <> [] -> length mask = 4%nat ->
  net.Mask ip mask = zip_with Z.land (net.To4 ip) mask.
Proof.
  intros Hne Hm.
  do 5 (destruct mask as [|? mask]; try discriminate). clear Hm.
  destruct (Nat.eqb_spec (length ip) 4) as [E4|N4].
  { do 5 (destruct ip as [|? ip]; try discriminate). reflexivity. }
  destruct (Nat.eqb_spec (length ip) 16) as [E16|N16].
  2:{ exfalso. apply Hne. unfold net.To4.
      apply Nat.eqb_neq in N4, N16.
      change net.IPv4len with 4%nat. change net.IPv6len with 16%nat.
      rewrite N4, N16. reflexivity. }
  do 17 (destruct ip as [|? ip]; try discriminate). clear N4 E16.
  unfold net.To4, net.isZeros in Hne.
  cbn -[Z.eqb bool_decide] in Hne.
  repeat match type of Hne with
         | context [Z.eqb 0 ?z] =>
             destruct (Z.eqb_spec 0 z);
             [subst z|cbn -[Z.eqb bool_decide] in Hne; congruence]
         end.
  cbn -[bool_decide] in Hne.
  repeat match type of Hne with
         | context [bool_decide (Some ?z = Some 255)] =>
             destruct (bool_decide_reflect (Some z = Some 255)) as [[= ->]|];
             [|cbn -[bool_decide] in Hne; congruence]
         end.
  reflexivity.
Qed.

(** *** Supernets given by a prefix length *)

Section BuiltSupernet.
Context (w : World) (workDir : string) (subnet : IPNet.t) (min max : Z).
Context (a : Allocator).
Hypothesis Hbytes : is_bytes (IPNet.IP subnet) = true.
Hypothesis Hnew : snd (NewAllocator w workDir subnet min max) = Ok a.

Local Abbreviation anchor := (net.To4 (IPNet.IP subnet)).
Local Abbreviation B := (ipv4_to_number anchor).

Lemma built_supernet_masked :
  length (IPNet.Mask subnet) = 4%nat ->
  privateSubnet a =
    IPNet.mk (zip_with Z.land anchor (IPNet.Mask subnet)) (IPNet.Mask subnet).
Proof.
  intros Hm.
  destruct (NewAllocator_Ok _ _ _ _ _ _ Hbytes Hnew) as (Hip & _ & Hsub & _).
  fold anchor in Hip. rewrite Hsub. f_equal.
  assert (Hne : net.To4 (IPNet.IP subnet) <> []).
  { fold anchor. intros E. rewrite E in Hip. discriminate. }
  rewrite (Mask_To4 _ _ Hne Hm). fold anchor.
  apply To4_length4.
  rewrite length_zip_with, (is_ipv4_length _ Hip), Hm. reflexivity.
Qed.

(** The anchor lies in the supernet built from it. *)
Lemma built_contains_anchor :
  length (IPNet.Mask subnet) = 4%nat ->
  net.Contains (privateSubnet a) anchor = true.
Proof.
  intros Hm. rewrite (built_supernet_masked Hm).
  destruct (NewAllocator_Ok _ _ _ _ _ _ Hbytes Hnew) as (Hip & _).
  fold anchor in Hip. pose proof (is_ipv4_length _ Hip) as Hl.
  rewrite Contains_ipv4; [| | exact Hm | exact Hl].
  2:{ rewrite length_zip_with, Hl, Hm. reflexivity. }
  apply sameNetwork_refl_masked.
  - apply zip_land_idem.
  - rewrite length_zip_with, Hl, Hm. reflexivity.
  - congruence.
Qed.

Lemma built_contains_prefix k R :
  IPNet.Mask subnet = net.CIDRMask k 32 -> 0 <= k <= 32 ->
  same_prefix k B R ->
  net.Contains (privateSubnet a) (number_to_ipv4 R) = true.
Proof.
  intros Hmask Hk Hp.
  assert (Hm : length (IPNet.Mask subnet) = 4%nat)
    by (rewrite Hmask, CIDRMask_number by exact Hk; reflexivity).
  rewrite (built_supernet_masked Hm).
  destruct (NewAllocator_Ok _ _ _ _ _ _ Hbytes Hnew) as (Hip & _).
  fold anchor in Hip.
  rewrite Hmask, CIDRMask_number by exact Hk.
  rewrite <- (ipv4_number_back anchor Hip). fold B.
  rewrite zip_land_number.
  rewrite Contains_ipv4 by reflexivity.
  apply sameNetwork_refl_masked; try reflexivity.
  rewrite !zip_land_number. f_equal.
  rewrite <- Z.land_assoc, Z.land_diag.
  apply prefix_mask_land; assumption.
Qed.

End BuiltSupernet.

(** *** The probe loop *)




(** The candidate a caller draws next. *)
Lemma Intn_range r n :
  0 < n ->
  exists k, rand.Intn r n = Ok (k, rand.mk (rand.src r) (S (rand.pos r)))
            /\ 0 <= k < n.
Proof.
  intros Hn. unfold rand.Intn.
  destruct (Z.leb_spec n 0); [lia|].
  eexists; split; [reflexivity | apply Z.mod_pos_bound; lia].
Qed.

Lemma open_attempts_log c w :
  open_attempts (log c w) =
  ((if is_open c then 1 else 0) + open_attempts w)%nat.
Proof. unfold open_attempts, log. cbn. destruct (is_open c); reflexivity. Qed.

Lemma open_attempts_set_files fs w :
  open_attempts (set_files fs w) = open_attempts w.
Proof. reflexivity. Qed.

Lemma attempt_outcome a interval w :
  match attempt a interval w with
  | (w', a', r) =>
      pass_outcome a w w' a' r /\
      uidsDir a' = uidsDir a /\ minUID a' = minUID a /\ maxUID a' = maxUID a
  end.
Proof.
  unfold attempt.
  destruct (rand.Intn (rng a) interval) as [[k g]|e|m] eqn:EI.
  - cbn [set_rng uidsDir minUID].
    set (file := filepath.Join (uidsDir a) (strconv.Itoa (int_add k (minUID a)))).
    unfold os.OpenFile_CREATE_EXCL.
    destruct (w_dir_fault (log (SysOpenExcl file) w)) eqn:Ed.
    { split; [|auto]. apply pass_collision; [reflexivity|].
      rewrite open_attempts_log. reflexivity. }
    case_bool_decide as Hin.
    { split; [|auto]. apply pass_collision; [reflexivity|].
      rewrite open_attempts_log. reflexivity. }
    destruct (w_create_fault (log (SysOpenExcl file) w)) eqn:Ec.
    { split; [|auto]. apply pass_collision; [reflexivity|].
      rewrite open_attempts_log. reflexivity. }
    unfold os.Close.
    match goal with |- context [w_close_fault ?x] =>
      destruct (w_close_fault x) eqn:Ecl end.
    + split; [|auto].
      apply (pass_close_failed a w _ _ (int_add k (minUID a)));
        [exact Hin | reflexivity |].
      rewrite open_attempts_log, open_attempts_set_files, open_attempts_log.
      reflexivity.
    + split; [|auto]. apply pass_claimed; [exact Hin | reflexivity |].
      rewrite open_attempts_log, open_attempts_set_files, open_attempts_log.
      reflexivity.
  - unfold rand.Intn in EI. destruct (interval <=? 0); discriminate.
  - split; [|auto]. apply pass_panic; reflexivity.
Qed.

Lemma probe_attempts retries a dir interval w :
  match probe retries a dir interval w with
  | (w', _, _) =>
      (open_attempts w <= open_attempts w' <= open_attempts w + retries)%nat
  end.
Proof.
  revert a w. induction retries as [|k IH]; intros a w; cbn [probe].
  - lia.
  - pose proof (attempt_outcome a interval w) as Ha.
    destruct (attempt a interval w) as [[w1 a1] [r|]].
    + destruct Ha as [Ha _]. inversion Ha; subst; lia.
    + destruct Ha as [Ha _]. inversion Ha; subst.
      specialize (IH a1 w1).
      destruct (probe k a1 dir interval w1) as [[w2 a2] r2]. lia.
Qed.

Lemma attempt_refused a interval w :
  0 < interval -> refused a interval w ->
  exists w' a',
    attempt a interval w = (w', a', None) /\
    refused a' interval w' /\
    open_attempts w' = S (open_attempts w) /\
    w_files w' = w_files w.
Proof.
  intros Hi Href. unfold attempt.
  destruct (Intn_range (rng a) interval Hi) as (k & -> & Hk).
  cbn [set_rng uidsDir minUID].
  set (file := filepath.Join (uidsDir a) (strconv.Itoa (int_add k (minUID a)))).
  assert (Hkeep : forall w1 a1,
            w_dir_fault w1 = w_dir_fault w ->
            w_create_fault w1 = w_create_fault w ->
            w_files w1 = w_files w ->
            uidsDir a1 = uidsDir a -> minUID a1 = minUID a ->
            refused a1 interval w1).
  { intros w1 a1 E1 E2 E3 E4 E5. unfold refused.
    rewrite E1, E2, E3, E4, E5. exact Href. }
  unfold os.OpenFile_CREATE_EXCL.
  destruct (w_dir_fault (log (SysOpenExcl file) w)) eqn:Ed.
  { do 2 eexists. split; [reflexivity|]. split; [|split; [|reflexivity]].
    - apply Hkeep; reflexivity.
    - rewrite open_attempts_log. reflexivity. }
  case_bool_decide as Hin.
  { do 2 eexists. split; [reflexivity|]. split; [|split; [|reflexivity]].
    - apply Hkeep; reflexivity.
    - rewrite open_attempts_log. reflexivity. }
  destruct (w_create_fault (log (SysOpenExcl file) w)) eqn:Ec.
  { do 2 eexists. split; [reflexivity|]. split; [|split; [|reflexivity]].
    - apply Hkeep; reflexivity.
    - rewrite open_attempts_log. reflexivity. }
  exfalso. destruct Href as [Hf|[Hf|Hf]].
  - apply Hf. exact Ed.
  - apply Hf. exact Ec.
  - apply Hin. apply (Hf k Hk).
Qed.

Lemma probe_refused retries a dir interval w :
  0 < interval -> refused a interval w ->
  exists w' a',
    probe retries a dir interval w = (w', a', Err (noFreeNumber dir)) /\
    open_attempts w' = (open_attempts w + retries)%nat /\
    w_files w' = w_files w.
Proof.
  intros Hi. revert a w. induction retries as [|k IH]; intros a w Href.
  - do 2 eexists. cbn [probe]. split; [reflexivity|]. split; [lia|reflexivity].
  - destruct (attempt_refused a interval w Hi Href)
      as (w1 & a1 & E & Href1 & Ho & Hf).
    cbn [probe]. rewrite E.
    destruct (IH a1 w1 Href1) as (w2 & a2 & E2 & Ho2 & Hf2).
    do 2 eexists. split; [exact E2|]. split; [lia | congruence].
Qed.

Lemma sane_budget a :
  sane_bounds a ->
  int_add (int_sub (maxUID a) (minUID a)) 1 = maxUID a - minUID a + 1 /\
  int_mul 5 (int_add (int_sub (maxUID a) (minUID a)) 1)
  = 5 * (maxUID a - minUID a + 1).
Proof.
  intros (Hmin & Hle & Hmax & Hb). unfold int_add, int_sub, int_mul.
  rewrite (int_wrap_small (maxUID a - minUID a)) by lia.
  rewrite (int_wrap_small (maxUID a - minUID a + 1)) by lia.
  rewrite int_wrap_small by lia. auto.
Qed.

Lemma fully_reserved_refused a w :
  sane_bounds a -> fully_reserved a w ->
  refused a (maxUID a - minUID a + 1) w.
Proof.
  intros (Hmin & Hle & Hmax & Hb) Hfull. right. right. intros k Hk.
  unfold int_add. rewrite int_wrap_small by lia. apply Hfull. lia.
Qed.

(** *** Concurrent callers *)

Lemma caller_step_spec c w :
  match caller_step c w with
  | (w', c') =>
      (uidsDir (c_alloc c') = uidsDir (c_alloc c)) /\
      (w_files w ⊆ w_files w') /\
      forall n, c_result c' = Some (Ok n) ->
        c_result c = Some (Ok n) \/
        ((marker (uidsDir (c_alloc c)) n ∉ w_files w) /\
         (marker (uidsDir (c_alloc c)) n ∈ w_files w'))
  end.
Proof.
  unfold caller_step. destruct (c_result c) as [r|] eqn:Er.
  { split; [reflexivity|]. split; [reflexivity|]. intros n Hn. left. congruence. }
  destruct (c_retries c) as [|k].
  { cbn. split; [reflexivity|]. split; [reflexivity|]. intros n [=]. }
  pose proof (attempt_outcome (c_alloc c) (c_interval c) w) as Ha.
  destruct (attempt (c_alloc c) (c_interval c) w) as [[w1 a1] r].
  destruct Ha as (Ha & Hd & _). cbn [c_alloc c_result].
  split; [exact Hd|].
  inversion Ha as [? ? ? -> ->|? ? Hf Ho|? ? n Hnot Hf Ho|? ? n e Hnot Hf Ho];
    subst; rewrite ?Hf;
    (split; [first [reflexivity | apply union_subseteq_r]|]);
    intros n' [=]; subst.
  right. split; [exact Hnot|]. apply elem_of_union_l, elem_of_singleton.
  reflexivity.
Qed.

Lemma returned_lookup s k r :
  returned s k = Some r <->
  exists c, sys_callers s !! k = Some c /\ c_result c = Some r.
Proof.
  unfold returned. destruct (sys_callers s !! k) as [c|]; cbn.
  - split; [eauto | intros (c' & [= <-] & H); exact H].
  - split; [discriminate | intros (c' & [=] & _)].
Qed.

Lemma claims_ok_step d s k : claims_ok d s -> claims_ok d (sys_step s k).
Proof.
  intros (Hdir & Hmark & Hdist). unfold sys_step.
  destruct (sys_callers s !! k) as [c|] eqn:Ek; [|repeat split; assumption].
  pose proof (caller_step_spec c (sys_world s)) as Hstep.
  destruct (caller_step c (sys_world s)) as [w' c'].
  destruct Hstep as (Hd' & Hsub & Hnew).
  pose proof (Hdir k c Ek) as Hdk. rewrite Hdk in Hnew.
  assert (Hlen : (k < length (sys_callers s))%nat)
    by (eapply lookup_lt_Some; eauto).
  assert (Hfresh : forall j cj n, j <> k ->
            sys_callers s !! j = Some cj -> c_result cj = Some (Ok n) ->
            forall m, c_result c' = Some (Ok m) -> m <> n).
  { intros j cj n Hjk Hj Hr m Hm Heq. subst m.
    destruct (Hnew n Hm) as [Hold|[Hnot _]].
    - refine (Hdist k j n n _ _ _ eq_refl); [congruence| |];
        apply returned_lookup; eauto.
    - apply Hnot. eapply Hmark; eauto. }
  split; [|split]; cbn [sys_callers sys_world].
  - intros j cj Hj. destruct (decide (j = k)) as [->|Hne].
    + rewrite list_lookup_insert_eq in Hj by exact Hlen.
      injection Hj as <-. congruence.
    + rewrite list_lookup_insert_ne in Hj by congruence. eauto.
  - intros j cj n Hj Hr. destruct (decide (j = k)) as [->|Hne].
    + rewrite list_lookup_insert_eq in Hj by exact Hlen.
      injection Hj as <-.
      destruct (Hnew n Hr) as [Hold|[_ Hin]]; [|exact Hin].
      apply Hsub. eapply Hmark; eauto.
    + rewrite list_lookup_insert_ne in Hj by congruence.
      apply Hsub. eapply Hmark; eauto.
  - intros i j ni nj Hij Hi Hj.
    apply returned_lookup in Hi as (ci & Hi & Hri).
    apply returned_lookup in Hj as (cj & Hj & Hrj).
    cbn [sys_callers] in Hi, Hj.
    destruct (decide (i = k)) as [->|Hik], (decide (j = k)) as [->|Hjk];
      try congruence.
    + rewrite list_lookup_insert_eq in Hi by exact Hlen.
      rewrite list_lookup_insert_ne in Hj by congruence.
      injection Hi as <-. eapply Hfresh; eauto.
    + rewrite list_lookup_insert_ne in Hi by congruence.
      rewrite list_lookup_insert_eq in Hj by exact Hlen.
      injection Hj as <-. intros E. symmetry in E. revert E.
      eapply Hfresh; eauto.
    + rewrite list_lookup_insert_ne in Hi by congruence.
      rewrite list_lookup_insert_ne in Hj by congruence.
      apply (Hdist i j ni nj Hij); apply returned_lookup; eauto.
Qed.

Lemma claims_ok_run d sched s : claims_ok d s -> claims_ok d (run sched s).
Proof.
  unfold run. revert s. induction sched as [|k sched IH]; intros s H; cbn.
  - exact H.
  - apply IH, claims_ok_step, H.
Qed.

Lemma claims_ok_spawn d w allocs :
  Forall (fun a => uidsDir a = d) allocs -> claims_ok d (spawn w allocs).
Proof.
  intros Hall. unfold spawn. split; [|split]; cbn [sys_callers sys_world].
  - intros k c Hk. apply list_lookup_fmap_Some in Hk as (a & -> & Ha).
    cbn. rewrite Forall_lookup in Hall. eapply Hall; eauto.
  - intros k c n Hk Hr. apply list_lookup_fmap_Some in Hk as (a & -> & Ha).
    discriminate.
  - intros i j ni nj _ Hi _. apply returned_lookup in Hi as (c & Hk & Hr).
    cbn in Hk. apply list_lookup_fmap_Some in Hk as (a & -> & Ha).
    discriminate.
Qed.

Lemma attempt_no_panic a interval w m :
  0 < interval -> snd (attempt a interval w) <> Some (Panic m).
Proof.
  intros Hi. unfold attempt.
  destruct (Intn_range (rng a) interval Hi) as (k & -> & _).
  destruct (os.OpenFile_CREATE_EXCL w _) as [w1 [f|e|m']]; cbn; try discriminate.
  destruct (os.Close w1 f) as [w2 [e|]]; cbn; discriminate.
Qed.

Lemma probe_outcome retries a dir interval w :
  0 < interval ->
  match probe retries a dir interval w with
  | (w', _, r) => call_outcome a dir retries w w' r
  end.
Proof.
  intros Hi. revert a w. induction retries as [|k IH]; intros a w; cbn [probe].
  - apply call_exhausted; [lia | reflexivity].
  - pose proof (attempt_outcome a interval w) as Ha.
    pose proof (fun m => attempt_no_panic a interval w m Hi) as Hnp.
    destruct (attempt a interval w) as [[w1 a1] [r|]];
      destruct Ha as (Ha & Hd & _).
    + inversion Ha as [? ? m E1 E2|? ? Hf Ho|? ? n Hnot Hf Ho|? ? n e Hnot Hf Ho];
        subst.
      * exfalso. apply (Hnp m). reflexivity.
      * apply call_claimed; assumption.
      * apply call_close_failed; assumption.
    + inversion Ha as [|? ? Hf Ho| |]; subst.
      specialize (IH a1 w1).
      destruct (probe k a1 dir interval w1) as [[w2 a2] r2].
      inversion IH as [n Hnot Hf2|n e Hnot Hf2|Ho2 Hf2]; subst;
        rewrite ?Hd, ?Hf in *.
      * apply call_claimed; assumption.
      * apply call_close_failed; assumption.
      * apply call_exhausted; [lia | congruence].
Qed.

(** ** The example configurations and the operations of the allocator *)

Example default_allocator_built :
  newAllocator (quiet_world []) DefaultPrivateSubnet 0 9 = Ok default_allocator.
Proof. reflexivity. Qed.

Example striped_allocator_built :
  newAllocator (quiet_world []) striped 0 99 = Ok striped_allocator.
Proof. reflexivity. Qed.

Example pair_allocator_built :
  newAllocator unlucky_world DefaultPrivateSubnet 0 1
  = Ok (pair_allocator unlucky).
Proof. reflexivity. Qed.

(** The scenario of the specification: supernet 10.0.0.0/8, anchor 10.0.0.0,
    uids 0 to 3. *)
Example ten_slash8_subnets :
  match newAllocator (quiet_world [])
                     (IPNet.mk [10; 0; 0; 0] (net.CIDRMask 8 32)) 0 3 with
  | Ok a => (availableSubnets a, privateNetForUID a <$> [0; 1; 2; 3])
  | _ => (0, [])
  end
  = (2 ^ 22,
     [Ok (IPNet.mk [10; 0; 0; 0] [255; 255; 255; 252]);
      Ok (IPNet.mk [10; 0; 0; 4] [255; 255; 255; 252]);
      Ok (IPNet.mk [10; 0; 0; 8] [255; 255; 255; 252]);
      Ok (IPNet.mk [10; 0; 0; 12] [255; 255; 255; 252])]).
Proof. reflexivity. Qed.

Example full_world_fully_reserved :
  fully_reserved (pair_allocator unlucky) full_world.
Proof.
  intros n Hn. cbn in Hn.
  assert (n = 0 \/ n = 1) as [-> | ->] by lia;
    refine (bool_decide_unpack _ _); vm_compute; exact I.
Qed.

Lemma privateNetForUID_shift a u1 u2 :
  shift_of a u1 = shift_of a u2 ->
  privateNetForUID a u1 = privateNetForUID a u2.
Proof.
  intros E. unfold privateNetForUID.
  change (uint32 (int_sub u1 (minUID a)) mod availableSubnets a)
    with (shift_of a u1).
  change (uint32 (int_sub u2 (minUID a)) mod availableSubnets a)
    with (shift_of a u2).
  rewrite E. reflexivity.
Qed.

Lemma privateNetForUID_rng a g uid :
  privateNetForUID (set_rng g a) uid = privateNetForUID a uid.
Proof. reflexivity. Qed.

Lemma shift_of_wrapped a uid :
  shift_of a uid = ((uid - minUID a) mod 2 ^ 32) mod availableSubnets a.
Proof. unfold shift_of, int_sub. rewrite uint32_int_wrap. reflexivity. Qed.

Lemma Write_uint32_aligned x :
  is_ipv4 (binary.Write_uint32 (uint32_shl x 2)) = true /\
  ipv4_to_number (binary.Write_uint32 (uint32_shl x 2)) mod 4 = 0.
Proof.
  rewrite Write_uint32_number. split; [apply number_to_ipv4_is_ipv4|].
  unfold uint32_shl. cbn [Z.leb Z.compare].
  rewrite ipv4_number_roundtrip by apply uint32_range.
  unfold uint32. rewrite Z.shiftl_mul_pow2 by lia.
  change (2 ^ 32) with (4 * 2 ^ 30). change (2 ^ 2) with 4.
  rewrite (Z.mul_comm x 4), Z.mul_mod_distr_l by lia.
  rewrite Z.mul_comm. apply Z.mod_mul. lia.
Qed.

Lemma subnetsToSkip_Ok ip s :
  is_ipv4 ip = true -> exists k, subnetsToSkip ip s = Ok k.
Proof.
  intros H. unfold subnetsToSkip. rewrite (Read_uint32_ipv4 _ H).
  eexists. reflexivity.
Qed.

(** A built allocator on which [privateNetForUID] succeeds has a prefix
    length of at most 30. *)
Lemma success_bounds_prefix w workDir subnet min max a uid n :
  is_bytes (IPNet.IP subnet) = true ->
  fst (net.Size (IPNet.Mask subnet)) <= 32 ->
  snd (NewAllocator w workDir subnet min max) = Ok a ->
  privateNetForUID a uid = Ok n ->
  fst (net.Size (IPNet.Mask subnet)) <= 30.
Proof.
  intros Hb Hs Hnew Hok.
  destruct (Z.le_gt_cases (fst (net.Size (IPNet.Mask subnet))) 30) as [H|H];
    [exact H | exfalso].
  pose proof (built_available w workDir subnet min max a Hb Hnew Hs) as Hav.
  rewrite available_zero in Hav
    by (try apply (built_anchor w workDir subnet min max a Hb Hnew); lia).
  unfold privateNetForUID in Hok. rewrite Hav in Hok. discriminate.
Qed.

Lemma built_success w workDir subnet min max a uid n :
  is_bytes (IPNet.IP subnet) = true ->
  fst (net.Size (IPNet.Mask subnet)) <= 32 ->
  snd (NewAllocator w workDir subnet min max) = Ok a ->
  privateNetForUID a uid = Ok n ->
  n = block_after_anchor a (shift_of a uid) /\
  0 <= (ipv4_to_number (IPNet.IP (basePrivateIP a)) / 4 + shift_of a uid) * 4
    < 2 ^ 32.
Proof.
  intros Hb Hs Hnew Hok.
  pose proof (success_bounds_prefix _ _ _ _ _ _ _ _ Hb Hs Hnew Hok) as Hs30.
  destruct (built_derivation w workDir subnet min max a Hb Hnew uid Hs30)
    as (HR & _ & E).
  destruct (NewAllocator_Ok _ _ _ _ _ _ Hb Hnew) as (_ & _ & _ & Hbase & _).
  rewrite Hbase. cbn [IPNet.IP]. split; [|exact HR].
  rewrite E in Hok.
  match type of Hok with
  | context [net.Contains ?s ?ip] => destruct (net.Contains s ip)
  end; [|discriminate].
  injection Hok as <-. reflexivity.
Qed.

Lemma built_success_address w workDir subnet min max a uid n :
  is_bytes (IPNet.IP subnet) = true ->
  fst (net.Size (IPNet.Mask subnet)) <= 32 ->
  snd (NewAllocator w workDir subnet min max) = Ok a ->
  privateNetForUID a uid = Ok n ->
  let B := ipv4_to_number (net.To4 (IPNet.IP subnet)) in
  let R := (B / 4 + shift_of a uid) * 4 in
  IPNet.IP n = number_to_ipv4 R /\ ipv4_to_number (IPNet.IP n) = R /\
  same_prefix (fst (net.Size (IPNet.Mask subnet))) B R.
Proof.
  intros Hb Hs Hnew Hok B R.
  pose proof (success_bounds_prefix _ _ _ _ _ _ _ _ Hb Hs Hnew Hok) as Hs30.
  destruct (built_derivation w workDir subnet min max a Hb Hnew uid Hs30)
    as (HR & Hp & _).
  destruct (built_success _ _ _ _ _ _ _ _ Hb Hs Hnew Hok) as [-> _].
  destruct (NewAllocator_Ok _ _ _ _ _ _ Hb Hnew) as (_ & _ & _ & Hbase & _).
  unfold block_after_anchor. rewrite Hbase. cbn [IPNet.IP]. fold B R.
  split; [reflexivity|]. split; [|exact Hp].
  apply ipv4_number_roundtrip. exact HR.
Qed.

Lemma ReserveUID_probe a w :
  sane_bounds a ->
  ReserveUID a w
  = probe (Z.to_nat (5 * (maxUID a - minUID a + 1))) a (uidsDir a)
          (maxUID a - minUID a + 1) w.
Proof.
  intros Hs. unfold ReserveUID, allocate.
  destruct (sane_budget a Hs) as [-> ->]. reflexivity.
Qed.

(** Whatever the bounds, the attempts do not exceed [maxRetries] as the code
    computes it. *)
Lemma ReserveUID_attempts_any_bounds a w :
  let '(w', _, _) := ReserveUID a w in
  (open_attempts w' - open_attempts w
   <= Z.to_nat (int_mul 5 (int_add (int_sub (maxUID a) (minUID a)) 1)))%nat.
Proof.
  unfold ReserveUID, allocate.
  pose proof (probe_attempts
    (Z.to_nat (int_mul 5 (int_add (int_sub (maxUID a) (minUID a)) 1))) a
    (uidsDir a) (int_add (int_sub (maxUID a) (minUID a)) 1) w) as H.
  destruct (probe _ a (uidsDir a) _ w) as [[w' a'] r]. lia.
Qed.

(** Any refusal of the exclusive create is absorbed and retried: with an
    I/O fault on the directory or on the creation of entries, [ReserveUID]
    spends its whole budget and reports that no number is free. *)
Lemma ReserveUID_absorbs_faults a w :
  sane_bounds a ->
  w_dir_fault w <> None \/ w_create_fault w <> None ->
  exists w' a',
    ReserveUID a w = (w', a', Err (noFreeNumber (uidsDir a))) /\
    Z.of_nat (open_attempts w')
    = Z.of_nat (open_attempts w) + 5 * (maxUID a - minUID a + 1).
Proof.
  intros Hs Hfault. rewrite (ReserveUID_probe a w Hs).
  pose proof Hs as (Hmin & Hle & Hmax & Hb).
  assert (Href : refused a (maxUID a - minUID a + 1) w).
  { destruct Hfault as [H|H]; [left; exact H | right; left; exact H]. }
  destruct (probe_refused (Z.to_nat (5 * (maxUID a - minUID a + 1))) a
              (uidsDir a) (maxUID a - minUID a + 1) w ltac:(lia) Href)
    as (w' & a' & E & Ho & _).
  exists w', a'. split; [exact E | lia].
Qed.

Lemma finished_caller_stays c w :
  is_Some (c_result c) -> caller_step c w = (w, c).
Proof. intros [r Hr]. unfold caller_step. rewrite Hr. reflexivity. Qed.

Lemma solo_finished n w c :
  is_Some (c_result c) ->
  run (replicate n 0%nat) (mkSystem w [c]) = mkSystem w [c].
Proof.
  intros Hc. induction n as [|n IH]; [reflexivity|].
  cbn [replicate]. unfold run in *. cbn [foldl].
  unfold sys_step at 2. cbn [sys_callers sys_world lookup list_lookup].
  rewrite (finished_caller_stays c w Hc). exact IH.
Qed.

Lemma solo_probe retries a interval w :
  let '(w', a', r) := probe retries a (uidsDir a) interval w in
  exists k,
    run (replicate (S retries) 0%nat)
        (mkSystem w [mkCaller a interval retries None])
    = mkSystem w' [mkCaller a' interval k (Some r)].
Proof.
  revert a w. induction retries as [|n IH]; intros a w.
  - cbn [probe]. exists 0%nat. reflexivity.
  - cbn [probe]. pose proof (attempt_outcome a interval w) as Ha.
    destruct (attempt a interval w) as [[w1 a1] [r|]] eqn:Eatt;
      destruct Ha as (_ & Hd & _).
    + exists n. change (replicate (S (S n)) 0%nat)
        with (0%nat :: replicate (S n) 0%nat).
      unfold run. cbn [foldl]. unfold sys_step at 2.
      cbn [sys_callers sys_world lookup list_lookup caller_step c_result
           c_retries c_alloc c_interval].
      rewrite Eatt. cbn [insert list_insert].
      apply (solo_finished (S n)). cbn. eauto.
    + specialize (IH a1 w1). rewrite Hd in IH.
      destruct (probe n a1 (uidsDir a) interval w1) as [[w2 a2] r2].
      destruct IH as [k IH]. exists k.
      change (replicate (S (S n)) 0%nat)
        with (0%nat :: replicate (S n) 0%nat).
      unfold run. cbn [foldl]. unfold sys_step at 2.
      cbn [sys_callers sys_world lookup list_lookup caller_step c_result
           c_retries c_alloc c_interval].
      rewrite Eatt. cbn [insert list_insert]. exact IH.
Qed.

(** A caller that is scheduled alone computes [ReserveUID]. *)
Lemma solo_ReserveUID a w :
  let '(w', a', r) := ReserveUID a w in
  exists c,
    run (replicate (S (c_retries (call_ReserveUID a))) 0%nat) (spawn w [a])
    = mkSystem w' [c] /\
    c_alloc c = a' /\ c_result c = Some r.
Proof.
  unfold ReserveUID, allocate, spawn, call_ReserveUID.
  cbn [fmap list_fmap c_retries].
  set (interval := int_add (int_sub (maxUID a) (minUID a)) 1).
  set (retries := Z.to_nat (int_mul 5 interval)).
  pose proof (solo_probe retries a interval w) as H.
  destruct (probe retries a (uidsDir a) interval w) as [[w' a'] r].
  destruct H as [k H]. eexists. split; [exact H|]. split; reflexivity.
Qed.

Example two_callers_get_both_uids :
  let s := run [0%nat; 1%nat; 1%nat]
               (spawn (quiet_world [0; 0; 1])
                  [pair_allocator (rand.New (quiet_world [0]) 7);
                   pair_allocator (rand.New (quiet_world [0; 1]) 7)]) in
  returned s 0%nat = Some (Ok 0) /\ returned s 1%nat = Some (Ok 1).
Proof. vm_compute. split; reflexivity. Qed.

(** * The claims of the specification *)

(** ** C1 *)

(** C1, the code at a failing input.  The storage directory is not
    writable, no marker exists, the range is [0, 1].  Every exclusive create
    is refused with EACCES, an error other than "already exists";
    [ReserveUID] does not return it: it makes all its 10 attempts and
    returns the capacity error. *)
Theorem ReserveUID_retries_permission_error :
  (forall path,
     snd (os.OpenFile_CREATE_EXCL readonly_world path)
     = Err (PathError "open" path EACCES)) /\
  let '(w', _, r) := ReserveUID (pair_allocator unlucky) readonly_world in
  r = Err (errorString "no free number available at /var/hsup/uids") /\
  open_attempts w' = 10%nat /\
  w_files w' = ∅.
Proof.
  split.
  - intros path. unfold os.OpenFile_CREATE_EXCL.
    cbn [w_dir_fault log readonly_world].
    rewrite bool_decide_eq_false_2 by apply not_elem_of_empty. reflexivity.
  - vm_compute. repeat split.
Qed.

(** ** C2 *)

(** C2, as stated, fails: for a /31 block the available subnet count is 0
    and [NewAllocator] still returns an allocator. *)
Lemma NewAllocator_accepts_zero_count :
  exists a,
    newAllocator (quiet_world []) slash31 0 9 = Ok a /\
    availableSubnets a = 0.
Proof. eexists. split; reflexivity. Qed.

(** C2, amended. [NewAllocator] does not validate the supernet/anchor
    combination: for an IPv4 anchor it returns an allocator whenever the
    uids directory can be created and the seed can be drawn.  No invalid
    combination arises for a prefix length of at most 30, where the count is
    between 1 and 2^(30 - prefix), and with a 4-byte mask the anchor lies in
    the supernet, which is the anchor masked; for the prefix lengths 31 and
    32 the count is 0 and the allocator is returned all the same. *)
Theorem NewAllocator_no_validation w workDir subnet min max :
  is_bytes (IPNet.IP subnet) = true ->
  net.To4 (IPNet.IP subnet) <> [] ->
  w_mkdir_fault w = None ->
  w_entropy w <> None ->
  let s := fst (net.Size (IPNet.Mask subnet)) in
  exists a,
    snd (NewAllocator w workDir subnet min max) = Ok a /\
    (length (IPNet.Mask subnet) = 4%nat ->
     net.Contains (privateSubnet a) (net.To4 (IPNet.IP subnet)) = true) /\
    (s <= 30 -> 1 <= availableSubnets a <= 2 ^ (30 - s)) /\
    (30 < s <= 32 -> availableSubnets a = 0).
Proof.
  intros Hb Hne Hmk Hen s.
  assert (Hip : is_ipv4 (net.To4 (IPNet.IP subnet)) = true)
    by (destruct (To4_is_ipv4 _ Hb); [contradiction | assumption]).
  assert (Hok : exists a, snd (NewAllocator w workDir subnet min max) = Ok a).
  { unfold NewAllocator, os.MkdirAll. cbn [w_mkdir_fault log]. rewrite Hmk.
    cbn [snd]. unfold crand.Int. cbn [w_entropy log].
    destruct (w_entropy w) as [z|]; [|contradiction].
    cbn [mbind result_bind].
    destruct (subnetsToSkip_Ok _ (fst (net.Size (IPNet.Mask subnet))) Hip)
      as [k ->].
    cbn [mbind result_bind]. eexists. reflexivity. }
  destruct Hok as [a Hnew]. exists a. split; [exact Hnew|].
  split; [|split].
  - intros Hm.
    apply (built_contains_anchor w workDir subnet min max a Hb Hnew Hm).
  - intros Hs.
    apply (built_available_range w workDir subnet min max a Hb Hnew Hs).
  - intros Hs. rewrite (built_available w workDir subnet min max a Hb Hnew)
      by (fold s; lia).
    apply available_zero; [|exact Hs].
    apply (built_anchor w workDir subnet min max a Hb Hnew).
Qed.

Lemma NewAllocator_no_validation_witness :
  exists a,
    snd (NewAllocator (quiet_world []) "/var/hsup" slash31 0 9) = Ok a /\
    (length (IPNet.Mask slash31) = 4%nat ->
     net.Contains (privateSubnet a) (net.To4 (IPNet.IP slash31)) = true) /\
    (fst (net.Size (IPNet.Mask slash31)) <= 30 ->
     1 <= availableSubnets a
       <= 2 ^ (30 - fst (net.Size (IPNet.Mask slash31)))) /\
    (30 < fst (net.Size (IPNet.Mask slash31)) <= 32 ->
     availableSubnets a = 0).
Proof.
  apply (NewAllocator_no_validation (quiet_world []) "/var/hsup" slash31 0 9).
  - reflexivity.
  - discriminate.
  - reflexivity.
  - discriminate.
Defined.

(** ** C3 *)

(** C3, as stated, fails: [NewAllocator] returns an allocator for a /31
    block, its [availableSubnets] is 0, and [privateNetForUID] panics on the
    modulo. *)
Lemma privateNetForUID_panics_on_slash31 :
  exists a,
    newAllocator (quiet_world []) slash31 0 9 = Ok a /\
    privateNetForUID a 0 = Panic "runtime error: integer divide by zero".
Proof. eexists. split; reflexivity. Qed.

(** C3, amended. For every allocator that [NewAllocator] returns for a
    block of prefix length at most 30 and every integer uid,
    [privateNetForUID] returns a value or an error and never panics; its
    result is a function of [uint32(uid - minUID) mod availableSubnets],
    which is (uid - minUID) mod availableSubnets for the uids of
    [minUID, minUID + 2^32), and of the configuration; it does not depend on
    the state of the allocator's random generator, takes no world and
    returns none. *)
Theorem privateNetForUID_total w workDir subnet min max a :
  is_bytes (IPNet.IP subnet) = true ->
  fst (net.Size (IPNet.Mask subnet)) <= 30 ->
  snd (NewAllocator w workDir subnet min max) = Ok a ->
  forall uid,
    ((exists n, privateNetForUID a uid = Ok n) \/
     (exists e, privateNetForUID a uid = Err e)) /\
    (forall uid', shift_of a uid' = shift_of a uid ->
                  privateNetForUID a uid' = privateNetForUID a uid) /\
    (forall uid',
       minUID a <= uid < minUID a + 2 ^ 32 ->
       minUID a <= uid' < minUID a + 2 ^ 32 ->
       (uid' - minUID a) mod availableSubnets a
         = (uid - minUID a) mod availableSubnets a ->
       privateNetForUID a uid' = privateNetForUID a uid) /\
    (forall g, privateNetForUID (set_rng g a) uid = privateNetForUID a uid).
Proof.
  intros Hb Hs Hnew uid. split; [|split; [|split]].
  - destruct (built_derivation w workDir subnet min max a Hb Hnew uid Hs)
      as (_ & _ & ->).
    match goal with
    | |- context [net.Contains ?s ?ip] => destruct (net.Contains s ip)
    end; [left | right]; eexists; reflexivity.
  - intros uid' E. apply privateNetForUID_shift, E.
  - intros uid' Hu Hu' E. apply privateNetForUID_shift.
    rewrite !shift_of_in_range by assumption. exact E.
  - intros g. apply privateNetForUID_rng.
Qed.

Lemma privateNetForUID_total_witness :
  ((exists n, privateNetForUID default_allocator 5 = Ok n) \/
   (exists e, privateNetForUID default_allocator 5 = Err e)) /\
  (forall uid', shift_of default_allocator uid' = shift_of default_allocator 5 ->
     privateNetForUID default_allocator uid'
     = privateNetForUID default_allocator 5) /\
  (forall uid',
     minUID default_allocator <= 5 < minUID default_allocator + 2 ^ 32 ->
     minUID default_allocator <= uid' < minUID default_allocator + 2 ^ 32 ->
     (uid' - minUID default_allocator) mod availableSubnets default_allocator
       = (5 - minUID default_allocator) mod availableSubnets default_allocator ->
     privateNetForUID default_allocator uid'
     = privateNetForUID default_allocator 5) /\
  (forall g, privateNetForUID (set_rng g default_allocator) 5
             = privateNetForUID default_allocator 5).
Proof.
  apply (privateNetForUID_total (quiet_world []) "/var/hsup"
           DefaultPrivateSubnet 0 9 default_allocator).
  - reflexivity.
  - vm_compute. discriminate.
  - reflexivity.
Defined.

(** ** C4 *)

(** C4, as stated, fails.  Two callers, uids 0 and 1, a pristine world.
    The first caller claims 0; the second draws 0 on each of its 10 passes
    and returns the capacity error, although 1 is free and N = 2 does not
    exceed max - min + 1 = 2. *)
Lemma concurrent_caller_exhausts_despite_free_uid :
  let allocs := [pair_allocator unlucky; pair_allocator unlucky] in
  let s := run one_then_other (spawn (quiet_world []) allocs) in
  pristine (quiet_world []) /\
  Forall (fun a => uidsDir a = "/var/hsup/uids" /\ minUID a = 0 /\
                   maxUID a = 1) allocs /\
  Z.of_nat (length allocs) <= 1 - 0 + 1 /\
  all_returned s /\
  returned s 0%nat = Some (Ok 0) /\
  returned s 1%nat
  = Some (Err (errorString "no free number available at /var/hsup/uids")) /\
  ~ all_succeeded s /\
  marker "/var/hsup/uids" 1 ∉ w_files (sys_world s).
Proof.
  intros allocs s.
  assert (Hres : c_result <$> sys_callers s
    = [Some (Ok 0);
       Some (Err (errorString "no free number available at /var/hsup/uids"))])
    by (vm_compute; reflexivity).
  assert (Hfree : marker "/var/hsup/uids" 1 ∉ w_files (sys_world s)).
  { intros Hin. apply (bool_decide_pack _) in Hin. vm_compute in Hin.
    exact Hin. }
  assert (Hret : forall k, returned s k = mjoin ((c_result <$> sys_callers s) !! k)).
  { intros k. unfold returned. rewrite list_lookup_fmap.
    destruct (sys_callers s !! k); reflexivity. }
  revert Hres Hfree Hret. generalize s. clear s. intros s Hres Hfree Hret.
  split; [repeat split|]. split; [repeat constructor|].
  split; [cbn; lia|].
  split; [|split; [|split; [|split]]].
  - intros k c Hk.
    assert (E : (c_result <$> sys_callers s) !! k = Some (c_result c))
      by (rewrite list_lookup_fmap, Hk; reflexivity).
    rewrite Hres in E. destruct k as [|[|k]]; cbn in E; try discriminate;
      injection E as <-; eauto.
  - rewrite Hret, Hres. reflexivity.
  - rewrite Hret, Hres. reflexivity.
  - intros Hall.
    destruct (sys_callers s !! 1%nat) as [c|] eqn:Ec.
    + destruct (Hall 1%nat c Ec) as [n Hn].
      assert (E : (c_result <$> sys_callers s) !! 1%nat = Some (c_result c))
        by (rewrite list_lookup_fmap, Ec; reflexivity).
      rewrite Hres, Hn in E. discriminate.
    + assert (E : (c_result <$> sys_callers s) !! 1%nat = None)
        by (rewrite list_lookup_fmap, Ec; reflexivity).
      rewrite Hres in E. discriminate.
  - exact Hfree.
Qed.

(** C4, amended.  For any number of callers of [ReserveUID] on one storage
    directory, under any schedule and from any state of the directory, the
    integers returned by the calls that succeed are pairwise distinct, and
    each has its marker in the directory: the atomic exclusive create never
    lets two reservations claim the same uid.  (A call may still fail with the
    capacity error when all its draws collide.) *)
Theorem concurrent_reservations_distinct w allocs d sched :
  Forall (fun a => uidsDir a = d) allocs ->
  let s := run sched (spawn w allocs) in
  pairwise_distinct s /\
  (forall k n, returned s k = Some (Ok n) ->
               marker d n ∈ w_files (sys_world s)).
Proof.
  intros Hall s.
  destruct (claims_ok_run d sched _ (claims_ok_spawn d w allocs Hall))
    as (_ & Hmark & Hdist).
  split; [exact Hdist|].
  intros k n Hr. apply returned_lookup in Hr as (c & Hk & Hc).
  eapply Hmark; eauto.
Qed.

Lemma concurrent_reservations_distinct_witness :
  let s := run [0%nat; 1%nat; 1%nat]
               (spawn (quiet_world [0; 0; 1])
                  [pair_allocator (rand.New (quiet_world [0]) 7);
                   pair_allocator (rand.New (quiet_world [0; 1]) 7)]) in
  pairwise_distinct s /\
  (forall k n, returned s k = Some (Ok n) ->
               marker "/var/hsup/uids" n ∈ w_files (sys_world s)).
Proof.
  apply (concurrent_reservations_distinct (quiet_world [0; 0; 1])
           [pair_allocator (rand.New (quiet_world [0]) 7);
            pair_allocator (rand.New (quiet_world [0; 1]) 7)]
           "/var/hsup/uids" [0%nat; 1%nat; 1%nat]).
  repeat constructor.
Defined.

(** ** C5 *)

(** C5, as stated, fails below [minUID]: for the default configuration and
    uid = minUID - 1 the code returns 172.23.0.24/30, the block of shift
    (2^32 - 1) mod 262137 = 114687, while the documented algorithm gives
    shift (-1) mod 262137 = 262136; the address also differs from the one
    obtained with a truncated remainder, shift -1. *)
Lemma documented_algorithm_differs_below_minUID :
  exists n,
    privateNetForUID default_allocator (-1) = Ok n /\
    n <> documented_subnet default_allocator (-1) /\
    n <> block_after_anchor default_allocator
           (Z.rem (-1 - minUID default_allocator)
                  (availableSubnets default_allocator)).
Proof. eexists. split; [reflexivity|]. split; discriminate. Qed.

(** C5, amended. For every uid with minUID <= uid < minUID + 2^32, the
    subnet returned by [privateNetForUID] is the result of the documented
    algorithm: shift = (uid - minUID) mod availableSubnets, the anchor
    address as a number divided by 4, plus shift, times 4, with a /30
    mask. *)
Theorem privateNetForUID_documented w workDir subnet min max a uid n :
  is_bytes (IPNet.IP subnet) = true ->
  fst (net.Size (IPNet.Mask subnet)) <= 32 ->
  snd (NewAllocator w workDir subnet min max) = Ok a ->
  minUID a <= uid < minUID a + 2 ^ 32 ->
  privateNetForUID a uid = Ok n ->
  n = documented_subnet a uid.
Proof.
  intros Hb Hs Hnew Hu Hok.
  destruct (built_success _ _ _ _ _ _ _ _ Hb Hs Hnew Hok) as [-> _].
  unfold documented_subnet. rewrite shift_of_in_range by exact Hu.
  reflexivity.
Qed.

Lemma privateNetForUID_documented_witness :
  IPNet.mk [172; 16; 0; 40] [255; 255; 255; 252]
  = documented_subnet default_allocator 3.
Proof.
  apply (privateNetForUID_documented (quiet_world []) "/var/hsup"
           DefaultPrivateSubnet 0 9 default_allocator 3).
  - reflexivity.
  - vm_compute. discriminate.
  - reflexivity.
  - vm_compute. split; [discriminate | reflexivity].
  - reflexivity.
Defined.

(** ** C6 *)

(** C6. [availableSubnets] is 2^(30 - prefix length) minus the anchor's
    address with the prefix bits masked off, divided by 4 (a power of two
    with a negative exponent counts as 0, as the conversion of the float to
    [uint32] truncates it); for the default configuration it is 2^18 - 7 and
    [SubnetFor(minUID)] is the anchor 172.16.0.28 with a /30 mask. *)
Theorem availableSubnets_accounting w workDir min max :
  (forall subnet a,
     is_bytes (IPNet.IP subnet) = true ->
     fst (net.Size (IPNet.Mask subnet)) <= 32 ->
     snd (NewAllocator w workDir subnet min max) = Ok a ->
     let s := fst (net.Size (IPNet.Mask subnet)) in
     let anchor := ipv4_to_number (net.To4 (IPNet.IP subnet)) in
     availableSubnets a = 2 ^ (30 - s) - anchor mod 2 ^ (32 - s) / 4) /\
  (forall a,
     snd (NewAllocator w workDir DefaultPrivateSubnet min max) = Ok a ->
     ipv4_to_number (IPNet.IP DefaultPrivateSubnet) mod 2 ^ (32 - 12) = 28 /\
     availableSubnets a = 2 ^ 18 - 7 /\
     SubnetFor a (minUID a)
     = Ok (IPNet.mk [172; 16; 0; 28] [255; 255; 255; 252])).
Proof.
  split.
  - intros subnet a Hb Hs Hnew s anchor.
    apply (built_available w workDir subnet min max a Hb Hnew Hs).
  - intros a Hnew.
    assert (Hb : is_bytes (IPNet.IP DefaultPrivateSubnet) = true)
      by reflexivity.
    destruct (NewAllocator_Ok _ _ _ _ _ _ Hb Hnew)
      as (_ & _ & Hsub & Hbase & Hmin & _ & Hav).
    specialize (Hav ltac:(vm_compute; discriminate)).
    change (availableSubnets a = 262137) in Hav.
    change (privateSubnet a
            = IPNet.mk [172; 16; 0; 0] [255; 240; 0; 0]) in Hsub.
    change (basePrivateIP a
            = IPNet.mk [172; 16; 0; 28] [255; 255; 255; 252]) in Hbase.
    split; [reflexivity|]. split; [exact Hav|].
    unfold SubnetFor, privateNetForUID.
    rewrite Hav, Hsub, Hbase. unfold int_sub.
    rewrite Z.sub_diag. reflexivity.
Qed.

Lemma availableSubnets_accounting_witness :
  availableSubnets default_allocator = 2 ^ 18 - 7 /\
  SubnetFor default_allocator 0
  = Ok (IPNet.mk [172; 16; 0; 28] [255; 255; 255; 252]).
Proof.
  split.
  - apply (proj1 (availableSubnets_accounting (quiet_world []) "/var/hsup" 0 9)
             DefaultPrivateSubnet default_allocator).
    + reflexivity.
    + vm_compute. discriminate.
    + reflexivity.
  - apply (proj2 (availableSubnets_accounting (quiet_world []) "/var/hsup" 0 9)
             default_allocator).
    reflexivity.
Defined.

(** ** C7 *)

(** C7, as stated, fails: in the default configuration the uids
    minUID + 114687 and minUID - 1 have different residues modulo
    [availableSubnets] (114687 and 262136; -1 with a truncated remainder),
    and both calls succeed with the same /30 network. *)
Lemma distinct_residues_same_subnet :
  let a := default_allocator in
  (114687 - minUID a) mod availableSubnets a
    <> (-1 - minUID a) mod availableSubnets a /\
  Z.rem (114687 - minUID a) (availableSubnets a)
    <> Z.rem (-1 - minUID a) (availableSubnets a) /\
  exists n, SubnetFor a 114687 = Ok n /\ SubnetFor a (-1) = Ok n.
Proof.
  cbv zeta. split; [discriminate|]. split; [discriminate|].
  eexists. split; reflexivity.
Qed.

(** C7, amended. With identical configuration [SubnetFor(u)] returns
    identical results, whatever the state of the random generators; and for
    any two uids u1, u2 in [minUID, minUID + 2^32) with
    (u1 - minUID) mod availableSubnets <> (u2 - minUID) mod availableSubnets
    (in general: any two uids whose shifts [uint32(u - minUID) mod
    availableSubnets] differ), whenever both calls succeed they return
    distinct /30 network addresses. *)
Theorem SubnetFor_determinism w workDir subnet min max a :
  is_bytes (IPNet.IP subnet) = true ->
  fst (net.Size (IPNet.Mask subnet)) <= 32 ->
  snd (NewAllocator w workDir subnet min max) = Ok a ->
  (forall a' u,
     privateSubnet a' = privateSubnet a ->
     basePrivateIP a' = basePrivateIP a ->
     availableSubnets a' = availableSubnets a ->
     minUID a' = minUID a ->
     SubnetFor a' u = SubnetFor a u) /\
  (forall u1 u2 n1 n2,
     shift_of a u1 <> shift_of a u2 ->
     SubnetFor a u1 = Ok n1 -> SubnetFor a u2 = Ok n2 ->
     IPNet.IP n1 <> IPNet.IP n2) /\
  (forall u1 u2 n1 n2,
     minUID a <= u1 < minUID a + 2 ^ 32 ->
     minUID a <= u2 < minUID a + 2 ^ 32 ->
     (u1 - minUID a) mod availableSubnets a
       <> (u2 - minUID a) mod availableSubnets a ->
     SubnetFor a u1 = Ok n1 -> SubnetFor a u2 = Ok n2 ->
     IPNet.IP n1 <> IPNet.IP n2).
Proof.
  intros Hb Hs Hnew.
  assert (Hdist : forall u1 u2 n1 n2,
     shift_of a u1 <> shift_of a u2 ->
     SubnetFor a u1 = Ok n1 -> SubnetFor a u2 = Ok n2 ->
     IPNet.IP n1 <> IPNet.IP n2).
  { intros u1 u2 n1 n2 Hne H1 H2.
    destruct (built_success _ _ _ _ _ _ _ _ Hb Hs Hnew H1) as [-> R1].
    destruct (built_success _ _ _ _ _ _ _ _ Hb Hs Hnew H2) as [-> R2].
    unfold block_after_anchor. cbn [IPNet.IP]. intros E.
    apply number_to_ipv4_inj in E; [|assumption..]. apply Hne. lia. }
  split; [|split].
  - intros a' u Hsub Hbase Hav Hmin. unfold SubnetFor, privateNetForUID.
    rewrite Hsub, Hbase, Hav, Hmin. reflexivity.
  - exact Hdist.
  - intros u1 u2 n1 n2 Hu1 Hu2 Hne. apply Hdist.
    rewrite !shift_of_in_range by assumption. exact Hne.
Qed.

Lemma SubnetFor_determinism_witness :
  IPNet.IP (IPNet.mk [172; 16; 0; 32] [255; 255; 255; 252])
  <> IPNet.IP (IPNet.mk [172; 16; 0; 36] [255; 255; 255; 252]).
Proof.
  apply (proj2 (proj2 (SubnetFor_determinism (quiet_world []) "/var/hsup"
           DefaultPrivateSubnet 0 9 default_allocator
           eq_refl ltac:(vm_compute; discriminate) eq_refl))
           1 2).
  - vm_compute. split; [discriminate | reflexivity].
  - vm_compute. split; [discriminate | reflexivity].
  - vm_compute. discriminate.
  - reflexivity.
  - reflexivity.
Defined.

(** ** C8 *)

(** C8. With bounds that are Go ints whose retry budget does not overflow,
    [ReserveUID] makes at most 5 * (maxUID - minUID + 1) exclusive-create
    attempts.  Either one attempt created a marker, and the call returns
    its uid or the error of the close; or every attempt was refused, nothing
    was created, exactly that many attempts were made, and the call fails
    with the error whose message is "no free number available at " followed
    by the storage directory.  The latter is what happens when every uid of
    the range is reserved. *)
Theorem ReserveUID_bounded_retries a w :
  sane_bounds a ->
  let budget := 5 * (maxUID a - minUID a + 1) in
  let '(w', _, r) := ReserveUID a w in
  Z.of_nat (open_attempts w') - Z.of_nat (open_attempts w) <= budget /\
  call_outcome a (uidsDir a) (Z.to_nat budget) w w' r /\
  (fully_reserved a w ->
   r = Err (errorString ("no free number available at " +:+ uidsDir a)) /\
   Z.of_nat (open_attempts w') = Z.of_nat (open_attempts w) + budget).
Proof.
  intros Hs budget. rewrite (ReserveUID_probe a w Hs). fold budget.
  pose proof Hs as (Hmin & Hle & Hmax & Hb).
  assert (Hi : 0 < maxUID a - minUID a + 1) by lia.
  pose proof (probe_attempts (Z.to_nat budget) a (uidsDir a)
                (maxUID a - minUID a + 1) w) as Hatt.
  pose proof (probe_outcome (Z.to_nat budget) a (uidsDir a)
                (maxUID a - minUID a + 1) w Hi) as Hout.
  pose proof (fun H => probe_refused (Z.to_nat budget) a (uidsDir a)
                (maxUID a - minUID a + 1) w Hi
                (fully_reserved_refused a w Hs H)) as Hfull.
  destruct (probe (Z.to_nat budget) a (uidsDir a)
              (maxUID a - minUID a + 1) w) as [[w' a'] r].
  split; [unfold budget in *; lia|]. split; [exact Hout|].
  intros H. destruct (Hfull H) as (w2 & a2 & E & Ho & _).
  injection E as -> -> ->.
  split; [reflexivity|]. unfold budget in *. lia.
Qed.

Lemma ReserveUID_bounded_retries_witness :
  let '(w', _, r) := ReserveUID (pair_allocator unlucky) full_world in
  Z.of_nat (open_attempts w') - Z.of_nat (open_attempts full_world) <= 10 /\
  r = Err (errorString "no free number available at /var/hsup/uids") /\
  Z.of_nat (open_attempts w') = Z.of_nat (open_attempts full_world) + 10.
Proof.
  pose proof (ReserveUID_bounded_retries (pair_allocator unlucky) full_world)
    as H.
  cbv zeta in H.
  destruct (ReserveUID (pair_allocator unlucky) full_world) as [[w' a'] r].
  destruct H as (Hle & _ & Hfull); [unfold sane_bounds; cbn; lia|].
  split; [exact Hle|]. apply Hfull, full_world_fully_reserved.
Defined.

(** ** C9 *)

(** C9. For every uid (in particular every uid of [minUID, maxUID]): when
    [SubnetFor] succeeds, the address it returns is contained in the
    configured supernet, is a 4-byte address and has its low 2 bits zero;
    when the derived address is not contained in the supernet, [SubnetFor]
    returns the out-of-subnet error instead of a subnet.  For a supernet
    given by a prefix length, contained means what it should: the address
    returned and the anchor agree on the prefix. *)
Theorem SubnetFor_containment (a : Allocator) (uid : Z) :
  (forall n, SubnetFor a uid = Ok n ->
     net.Contains (privateSubnet a) (IPNet.IP n) = true /\
     is_ipv4 (IPNet.IP n) = true /\
     ipv4_to_number (IPNet.IP n) mod 4 = 0) /\
  (forall asInt,
     availableSubnets a <> 0 ->
     binary.Read_uint32 (net.To4 (IPNet.IP (basePrivateIP a))) = Ok asInt ->
     let ip := binary.Write_uint32
                 (uint32_shl (uint32_add (uint32_shr asInt 2)
                                         (shift_of a uid)) 2) in
     net.Contains (privateSubnet a) ip = false ->
     SubnetFor a uid = Err (OutOfSubnetError ip (privateSubnet a))) /\
  (forall w workDir subnet min max k n,
     is_bytes (IPNet.IP subnet) = true ->
     IPNet.Mask subnet = net.CIDRMask k 32 -> 0 <= k <= 32 ->
     snd (NewAllocator w workDir subnet min max) = Ok a ->
     SubnetFor a uid = Ok n ->
     same_prefix k (ipv4_to_number (net.To4 (IPNet.IP subnet)))
                 (ipv4_to_number (IPNet.IP n))).
Proof.
  split; [|split].
  - intros n H. unfold SubnetFor, privateNetForUID in H.
    destruct (availableSubnets a =? 0); [discriminate|].
    destruct (binary.Read_uint32 _) as [asInt| |]; try discriminate.
    cbn [mbind result_bind] in H.
    match type of H with
    | context [net.Contains ?s ?ip] => destruct (net.Contains s ip) eqn:Ec
    end; [|discriminate].
    cbn [negb] in H. injection H as <-. cbn [IPNet.IP].
    split; [exact Ec | apply Write_uint32_aligned].
  - intros asInt Hav Hread ip Hout. unfold SubnetFor, privateNetForUID.
    destruct (Z.eqb_spec (availableSubnets a) 0) as [E|_]; [contradiction|].
    rewrite Hread. cbn [mbind result_bind].
    fold (shift_of a uid). fold ip. rewrite Hout. reflexivity.
  - intros w workDir subnet min max k n Hb Hmask Hk Hnew Hok.
    assert (Hsz : fst (net.Size (IPNet.Mask subnet)) = k)
      by (rewrite Hmask, Size_CIDRMask by lia; reflexivity).
    destruct (built_success_address w workDir subnet min max a uid n Hb
                ltac:(lia) Hnew Hok) as (_ & -> & Hp).
    rewrite Hsz in Hp. exact Hp.
Qed.

Lemma SubnetFor_containment_witness :
  (net.Contains (privateSubnet default_allocator) [172; 16; 0; 32] = true /\
   is_ipv4 [172; 16; 0; 32] = true /\
   ipv4_to_number [172; 16; 0; 32] mod 4 = 0) /\
  SubnetFor striped_allocator 64
  = Err (OutOfSubnetError [10; 0; 1; 0] (privateSubnet striped_allocator)) /\
  same_prefix 12 (ipv4_to_number [172; 16; 0; 28])
              (ipv4_to_number [172; 16; 0; 32]).
Proof.
  split; [|split].
  - apply (proj1 (SubnetFor_containment default_allocator 1)
             (IPNet.mk [172; 16; 0; 32] [255; 255; 255; 252])).
    reflexivity.
  - apply (proj1 (proj2 (SubnetFor_containment striped_allocator 64))
             167772160).
    + discriminate.
    + reflexivity.
    + reflexivity.
  - apply (proj2 (proj2 (SubnetFor_containment default_allocator 1))
             (quiet_world []) "/var/hsup" DefaultPrivateSubnet 0 9 12
             (IPNet.mk [172; 16; 0; 32] [255; 255; 255; 252])).
    + reflexivity.
    + reflexivity.
    + lia.
    + reflexivity.
    + reflexivity.
Defined.

(** ** C10 *)

(** C10. [privateNetForUID] checks no range: every uid is treated as the
    uid minUID + ((uid - minUID) mod 2^32), so for uid < minUID the
    difference wraps modulo 2^32 before it is reduced modulo
    [availableSubnets]; and for an allocator built for an IPv4 block of
    prefix length at most 30 a subnet is derived for such a uid, the block
    of that shift after the anchor, not an error. *)
Theorem privateNetForUID_wraps_below_minUID :
  (forall a uid,
     shift_of a uid = ((uid - minUID a) mod 2 ^ 32) mod availableSubnets a /\
     privateNetForUID a uid
     = privateNetForUID a (minUID a + (uid - minUID a) mod 2 ^ 32)) /\
  (forall w workDir subnet min max a k uid,
     is_bytes (IPNet.IP subnet) = true ->
     IPNet.Mask subnet = net.CIDRMask k 32 -> 0 <= k <= 30 ->
     snd (NewAllocator w workDir subnet min max) = Ok a ->
     uid < minUID a ->
     privateNetForUID a uid
     = Ok (block_after_anchor a
             (((uid - minUID a) mod 2 ^ 32) mod availableSubnets a))).
Proof.
  split.
  - intros a uid. split; [apply shift_of_wrapped|].
    apply privateNetForUID_shift. rewrite !shift_of_wrapped. f_equal.
    replace (minUID a + (uid - minUID a) mod 2 ^ 32 - minUID a)
      with ((uid - minUID a) mod 2 ^ 32) by lia.
    rewrite Z.mod_mod by lia. reflexivity.
  - intros w workDir subnet min max a k uid Hb Hmask Hk Hnew _.
    assert (Hsz : fst (net.Size (IPNet.Mask subnet)) = k)
      by (rewrite Hmask, Size_CIDRMask by lia; reflexivity).
    destruct (built_derivation w workDir subnet min max a Hb Hnew uid
                ltac:(lia)) as (_ & Hp & ->).
    rewrite Hsz in Hp.
    rewrite (built_contains_prefix w workDir subnet min max a Hb Hnew k _
               Hmask ltac:(lia) Hp).
    rewrite shift_of_wrapped. reflexivity.
Qed.

Lemma privateNetForUID_wraps_below_minUID_witness :
  privateNetForUID default_allocator (-1)
  = Ok (block_after_anchor default_allocator
          (((-1 - minUID default_allocator) mod 2 ^ 32)
           mod availableSubnets default_allocator)).
Proof.
  apply (proj2 privateNetForUID_wraps_below_minUID (quiet_world [])
           "/var/hsup" DefaultPrivateSubnet 0 9 default_allocator 12 (-1)).
  - reflexivity.
  - reflexivity.
  - lia.
  - reflexivity.
  - reflexivity.
Defined.

(** * Further properties of the code *)

(** ** Passes of the probe loop, one draw at a time *)

Lemma advance_0 a : advance 0 a = a.
Proof.
  unfold advance, set_rng. destruct a as [d p b n lo hi [src pos]]. cbn.
  rewrite Nat.add_0_r. reflexivity.
Qed.

Lemma advance_advance j k a : advance j (advance k a) = advance (k + j) a.
Proof.
  unfold advance, set_rng. cbn. rewrite Nat.add_assoc. reflexivity.
Qed.

Lemma candidate_advance a interval k i :
  candidate (advance k a) interval i = candidate a interval (k + i).
Proof.
  unfold candidate, advance, set_rng. cbn. rewrite Nat.add_assoc. reflexivity.
Qed.

Lemma candidate_range a interval i :
  0 < interval -> - 2 ^ 63 <= minUID a -> minUID a + interval <= 2 ^ 63 ->
  minUID a <= candidate a interval i < minUID a + interval.
Proof.
  intros Hi Hlo Hhi. unfold candidate, int_add.
  pose proof (Z.mod_pos_bound
    (rand.src (rng a) (rand.pos (rng a) + i)%nat) interval Hi).
  rewrite int_wrap_small by lia. lia.
Qed.

(** A pass whose candidate has its marker: the create is refused, the loop
    continues. *)
Lemma attempt_collides a interval w :
  0 < interval ->
  marker (uidsDir a) (candidate a interval 0) ∈ w_files w ->
  attempt a interval w
  = (log (SysOpenExcl (marker (uidsDir a) (candidate a interval 0))) w,
     advance 1 a, None).
Proof.
  intros Hi Hin. unfold attempt, rand.Intn.
  destruct (Z.leb_spec interval 0); [lia|].
  cbn [set_rng uidsDir minUID]. unfold os.OpenFile_CREATE_EXCL.
  unfold candidate, marker in Hin. rewrite Nat.add_0_r in Hin.
  unfold advance. rewrite Nat.add_1_r.
  unfold candidate, marker. rewrite Nat.add_0_r.
  destruct (w_dir_fault (log _ w)); [reflexivity|].
  rewrite bool_decide_eq_true_2 by exact Hin. reflexivity.
Qed.

(** A pass whose candidate is free, without a fault on the directory or on
    creation: the marker is created and the call returns, with the uid or
    with the error of the close. *)
Lemma attempt_claims a interval w :
  0 < interval ->
  w_dir_fault w = None -> w_create_fault w = None ->
  let n := candidate a interval 0 in
  let file := marker (uidsDir a) n in
  file ∉ w_files w ->
  attempt a interval w
  = (log (SysClose file)
       (set_files ({[file]} ∪ w_files w) (log (SysOpenExcl file) w)),
     advance 1 a,
     Some match w_close_fault w with
          | Some e => Err (PathError "close" file e)
          | None => Ok n
          end).
Proof.
  intros Hi Hd Hc n file Hnot. unfold attempt, rand.Intn.
  destruct (Z.leb_spec interval 0); [lia|].
  cbn [set_rng uidsDir minUID]. unfold os.OpenFile_CREATE_EXCL, os.Close.
  subst file n. unfold candidate, marker in *. rewrite Nat.add_0_r in *.
  unfold advance. rewrite Nat.add_1_r.
  cbn [w_dir_fault w_create_fault w_close_fault w_files log set_files].
  rewrite Hd, Hc. rewrite bool_decide_eq_false_2 by exact Hnot.
  change (w_close_fault (set_files _ (log _ w))) with (w_close_fault w).
  destruct (w_close_fault w); reflexivity.
Qed.

Lemma probe_first_free retries a dir interval w i :
  0 < interval ->
  w_dir_fault w = None -> w_create_fault w = None ->
  (i < retries)%nat ->
  (forall j, (j < i)%nat ->
             marker (uidsDir a) (candidate a interval j) ∈ w_files w) ->
  marker (uidsDir a) (candidate a interval i) ∉ w_files w ->
  exists w',
    probe retries a dir interval w
    = (w', advance (S i) a,
       match w_close_fault w with
       | Some e =>
           Err (PathError "close"
                  (marker (uidsDir a) (candidate a interval i)) e)
       | None => Ok (candidate a interval i)
       end) /\
    w_files w' = {[marker (uidsDir a) (candidate a interval i)]} ∪ w_files w /\
    open_attempts w' = (open_attempts w + S i)%nat.
Proof.
  intros Hi. revert retries a w.
  induction i as [|i IH]; intros retries a w Hd Hc Hlt Hbusy Hfree.
  - destruct retries as [|r]; [lia|]. cbn [probe].
    rewrite (attempt_claims a interval w Hi Hd Hc Hfree).
    eexists. split; [reflexivity|]. split; [reflexivity|].
    rewrite open_attempts_log, open_attempts_set_files, open_attempts_log.
    cbn. lia.
  - destruct retries as [|r]; [lia|]. cbn [probe].
    rewrite (attempt_collides a interval w Hi (Hbusy 0%nat ltac:(lia))).
    set (w1 := log _ w).
    destruct (IH r (advance 1 a) w1) as (w' & E & Hf & Ho);
      [exact Hd | exact Hc | lia | | |].
    + intros j Hj. rewrite candidate_advance. apply (Hbusy (S j)). lia.
    + rewrite candidate_advance. exact Hfree.
    + rewrite advance_advance, candidate_advance in E.
      rewrite candidate_advance in Hf.
      exists w'. split; [exact E|]. split; [exact Hf|].
      rewrite Ho. unfold w1. rewrite open_attempts_log. cbn. lia.
Qed.

Lemma attempt_inv a interval w w' a' r :
  attempt a interval w = (w', a', r) ->
  (exists m, r = Some (Panic m) /\ w' = w /\ a' = a /\ interval <= 0) \/
  (0 < interval /\ a' = advance 1 a /\
   open_attempts w' = S (open_attempts w) /\
   w_dir_fault w' = w_dir_fault w /\ w_create_fault w' = w_create_fault w /\
   w_close_fault w' = w_close_fault w /\
   let file := marker (uidsDir a) (candidate a interval 0) in
   ((r = None /\ w_files w' = w_files w) \/
    ((file ∉ w_files w) /\ w_files w' = {[file]} ∪ w_files w /\
     w_dir_fault w = None /\ w_create_fault w = None /\
     r = Some match w_close_fault w with
              | Some e => Err (PathError "close" file e)
              | None => Ok (candidate a interval 0)
              end))).
Proof.
  intros E. destruct (Z.leb_spec interval 0) as [Hle|Hlt].
  - left. unfold attempt, rand.Intn in E.
    destruct (Z.leb_spec interval 0); [|lia].
    injection E as <- <- <-. eauto.
  - right. split; [exact Hlt|].
    destruct (w_dir_fault w) as [ed|] eqn:Ed.
    { unfold attempt, rand.Intn in E.
      destruct (Z.leb_spec interval 0); [lia|].
      unfold os.OpenFile_CREATE_EXCL in E.
      cbn [w_dir_fault log set_rng uidsDir minUID] in E. rewrite Ed in E.
      injection E as <- <- <-. unfold advance. rewrite Nat.add_1_r.
      rewrite open_attempts_log.
      split; [reflexivity|]. split; [reflexivity|]. split; [exact Ed|].
      split; [reflexivity|]. split; [reflexivity|]. left. split; reflexivity. }
    destruct (decide (marker (uidsDir a) (candidate a interval 0) ∈ w_files w))
      as [Hin|Hnot].
    { rewrite (attempt_collides a interval w Hlt Hin) in E.
      injection E as <- <- <-. rewrite open_attempts_log.
      split; [reflexivity|]. split; [reflexivity|]. split; [exact Ed|].
      split; [reflexivity|]. split; [reflexivity|]. left. split; reflexivity. }
    destruct (w_create_fault w) as [ec|] eqn:Ec.
    { unfold attempt, rand.Intn in E.
      destruct (Z.leb_spec interval 0); [lia|].
      unfold os.OpenFile_CREATE_EXCL in E.
      cbn [w_dir_fault w_create_fault w_files log set_rng uidsDir minUID] in E.
      rewrite Ed, Ec in E. unfold candidate, marker in Hnot.
      rewrite Nat.add_0_r in Hnot.
      rewrite bool_decide_eq_false_2 in E by exact Hnot.
      injection E as <- <- <-. unfold advance. rewrite Nat.add_1_r.
      rewrite open_attempts_log.
      split; [reflexivity|]. split; [reflexivity|]. split; [exact Ed|].
      split; [exact Ec|]. split; [reflexivity|]. left. split; reflexivity. }
    rewrite (attempt_claims a interval w Hlt Ed Ec Hnot) in E.
    injection E as <- <- <-.
    rewrite open_attempts_log, open_attempts_set_files, open_attempts_log.
    split; [reflexivity|]. split; [reflexivity|]. split; [exact Ed|].
    split; [exact Ec|]. split; [reflexivity|]. right.
    split; [exact Hnot|]. split; [reflexivity|]. auto.
Qed.

Lemma probe_inv retries a dir interval w w' a' r :
  probe retries a dir interval w = (w', a', r) ->
  exists k,
    a' = advance k a /\ (k <= retries)%nat /\
    open_attempts w' = (open_attempts w + k)%nat /\
    w_dir_fault w' = w_dir_fault w /\ w_create_fault w' = w_create_fault w /\
    w_close_fault w' = w_close_fault w /\
    (forall n, r = Ok n ->
       (0 < k)%nat /\ n = candidate a interval (k - 1) /\ 0 < interval /\
       w_dir_fault w = None /\ w_close_fault w = None /\
       (marker (uidsDir a) n ∉ w_files w) /\
       w_files w' = {[marker (uidsDir a) n]} ∪ w_files w).
Proof.
  revert a w. induction retries as [|n IH]; intros a w E; cbn [probe] in E.
  - injection E as <- <- <-. exists 0%nat. rewrite advance_0.
    split; [reflexivity|]. split; [lia|]. split; [lia|].
    do 3 (split; [reflexivity|]). intros n [=].
  - destruct (attempt a interval w) as [[w1 a1] r1] eqn:Ea.
    destruct (attempt_inv _ _ _ _ _ _ Ea)
      as [(m & -> & -> & -> & _)|(Hi & -> & Ho & Hd & Hc & Hcl & Hcase)].
    { injection E as <- <- <-. exists 0%nat. rewrite advance_0.
      split; [reflexivity|]. split; [lia|]. split; [lia|].
      do 3 (split; [reflexivity|]). intros n' [=]. }
    cbv zeta in Hcase.
    destruct Hcase as [[-> Hf]|(Hnot & Hf & Hd0 & Hc0 & ->)].
    + destruct (IH _ _ E) as (k & -> & Hk & Ho2 & Hd2 & Hc2 & Hcl2 & Hok).
      exists (S k). rewrite advance_advance.
      split; [reflexivity|]. split; [lia|]. split; [lia|].
      do 3 (split; [congruence|]).
      intros n' Hn'. destruct (Hok n' Hn')
        as (Hk0 & -> & _ & Hdn & Hcn & Hnot & Hf').
      rewrite candidate_advance in *.
      replace (S k - 1)%nat with (1 + (k - 1))%nat by lia.
      cbn [uidsDir advance set_rng] in *.
      split; [lia|]. split; [reflexivity|]. split; [exact Hi|].
      split; [congruence|]. split; [congruence|].
      split; [congruence|]. congruence.
    + injection E as <- <- <-. exists 1%nat.
      split; [reflexivity|]. split; [lia|]. split; [lia|].
      do 3 (split; [assumption|]).
      intros n' Hn'. destruct (w_close_fault w); [discriminate|].
      injection Hn' as <-.
      split; [lia|]. split; [reflexivity|]. split; [exact Hi|].
      split; [exact Hd0|]. split; [reflexivity|]. split; assumption.
Qed.

Lemma ReserveUID_inv a w w' a' r :
  ReserveUID a w = (w', a', r) ->
  exists k,
    a' = advance k a /\
    open_attempts w' = (open_attempts w + k)%nat /\
    (forall n, r = Ok n ->
       n = candidate a (int_add (int_sub (maxUID a) (minUID a)) 1) (k - 1) /\
       0 < int_add (int_sub (maxUID a) (minUID a)) 1 /\
       w_dir_fault w' = None /\
       (marker (uidsDir a) n ∉ w_files w) /\
       w_files w' = {[marker (uidsDir a) n]} ∪ w_files w).
Proof.
  unfold ReserveUID, allocate. intros E.
  destruct (probe_inv _ _ _ _ _ _ _ _ E)
    as (k & -> & _ & Ho & Hd & _ & _ & Hok).
  exists k. split; [reflexivity|]. split; [exact Ho|].
  intros n Hn. destruct (Hok n Hn) as (_ & H1 & H2 & H3 & _ & H5 & H6).
  split; [exact H1|]. split; [exact H2|]. split; [congruence|].
  split; assumption.
Qed.

Lemma sane_interval a :
  sane_bounds a ->
  0 < interval_of a /\ - 2 ^ 63 <= minUID a /\
  minUID a + interval_of a <= 2 ^ 63 /\
  int_add (int_sub (maxUID a) (minUID a)) 1 = interval_of a /\
  Z.to_nat (int_mul 5 (int_add (int_sub (maxUID a) (minUID a)) 1))
  = Z.to_nat (5 * interval_of a).
Proof.
  intros Hs. destruct (sane_budget a Hs) as [E1 E2].
  destruct Hs as (Hmin & Hle & Hmax & Hb). unfold interval_of.
  rewrite E2, E1. repeat split; lia.
Qed.

Lemma Remove_present w path :
  w_dir_fault w = None -> path ∈ w_files w ->
  os.Remove w path
  = (set_files (w_files w ∖ {[path]}) (log (SysRemove path) w), None).
Proof.
  intros Hd Hin. unfold os.Remove. cbn [w_dir_fault w_files log].
  rewrite Hd, bool_decide_eq_true_2 by exact Hin. reflexivity.
Qed.

Lemma Remove_absent w path :
  path ∉ w_files w ->
  exists e,
    os.Remove w path = (log (SysRemove path) w, Some (PathError "remove" path e))
    /\ (w_dir_fault w = None -> e = ENOENT).
Proof.
  intros Hnot. unfold os.Remove. cbn [w_dir_fault w_files log].
  destruct (w_dir_fault w) as [e|].
  - exists e. split; [reflexivity | discriminate].
  - rewrite bool_decide_eq_false_2 by exact Hnot.
    exists ENOENT. split; reflexivity.
Qed.

(** ** Further properties of the reservation store *)



(** X2. [FreeUID] of a uid that has no marker fails (with ENOENT when the
    directory is accessible) and changes no file.  Releasing is therefore
    not idempotent: a second [FreeUID] right after a first one of the same
    uid always fails. *)
Theorem FreeUID_of_free_uid_fails a uid w :
  (marker (uidsDir a) uid ∉ w_files w ->
   let '(w', err) := FreeUID a uid w in
   w_files w' = w_files w /\
   exists e, err = Some (PathError "remove" (marker (uidsDir a) uid) e) /\
             (w_dir_fault w = None -> e = ENOENT)) /\
  (let '(w1, _) := FreeUID a uid w in
   let '(w2, err2) := FreeUID a uid w1 in
   w_files w2 = w_files w1 /\
   exists e, err2 = Some (PathError "remove" (marker (uidsDir a) uid) e)).
Proof.
  assert (Habs : forall w0,
    marker (uidsDir a) uid ∉ w_files w0 ->
    let '(w', err) := FreeUID a uid w0 in
    w_files w' = w_files w0 /\
    exists e, err = Some (PathError "remove" (marker (uidsDir a) uid) e) /\
              (w_dir_fault w0 = None -> e = ENOENT)).
  { intros w0 Hnot. unfold FreeUID.
    change (filepath.Join (uidsDir a) (strconv.Itoa uid))
      with (marker (uidsDir a) uid).
    destruct (Remove_absent _ _ Hnot) as (e & -> & He).
    split; [reflexivity|]. exists e. split; [reflexivity | exact He]. }
  split; [apply Habs|].
  destruct (FreeUID a uid w) as [w1 e1] eqn:E1.
  assert (Hgone : marker (uidsDir a) uid ∉ w_files w1 \/ w_dir_fault w1 <> None).
  { unfold FreeUID, os.Remove in E1. cbn [w_dir_fault w_files log] in E1.
    destruct (w_dir_fault w) eqn:Ed.
    - injection E1 as <- <-. right. cbn. rewrite Ed. discriminate.
    - case_bool_decide as Hin; injection E1 as <- <-; left; cbn.
      + rewrite elem_of_difference, elem_of_singleton. tauto.
      + exact Hin. }
  destruct Hgone as [Hnot|Hfault].
  - specialize (Habs w1 Hnot). destruct (FreeUID a uid w1) as [w2 e2].
    destruct Habs as (Hf & e & -> & _). split; [exact Hf|]. eauto.
  - unfold FreeUID, os.Remove. cbn [w_dir_fault w_files log].
    destruct (w_dir_fault w1) as [e|]; [|contradiction].
    split; [reflexivity|]. eauto.
Qed.

Lemma FreeUID_of_free_uid_fails_witness :
  let '(w', err) := FreeUID (pair_drawing []) 1 (reserved_world [0] None) in
  w_files w' = w_files (reserved_world [0] None) /\
  exists e, err = Some (PathError "remove" (marker "/var/hsup/uids" 1) e) /\
            (w_dir_fault (reserved_world [0] None) = None -> e = ENOENT).
Proof.
  apply (proj1 (FreeUID_of_free_uid_fails (pair_drawing []) 1
                  (reserved_world [0] None))).
  intros H. apply (bool_decide_pack _) in H. vm_compute in H. exact H.
Defined.

(** X3. Reserve, then free: when [ReserveUID] has returned a uid, [FreeUID]
    of that uid succeeds and the files of the storage directory are again
    exactly those from before the reservation. *)
Theorem ReserveUID_then_FreeUID_restores a w w1 a1 n :
  ReserveUID a w = (w1, a1, Ok n) ->
  exists w2, FreeUID a1 n w1 = (w2, None) /\ w_files w2 = w_files w.
Proof.
  intros E. destruct (ReserveUID_inv _ _ _ _ _ E) as (k & -> & _ & Hok).
  destruct (Hok n eq_refl) as (_ & _ & Hd & Hnot & Hf).
  unfold FreeUID. cbn [uidsDir advance set_rng].
  change (filepath.Join (uidsDir a) (strconv.Itoa n))
    with (marker (uidsDir a) n).
  rewrite Remove_present;
    [|exact Hd | rewrite Hf; apply elem_of_union_l, elem_of_singleton;
                 reflexivity].
  eexists. split; [reflexivity|]. cbn [w_files set_files log]. rewrite Hf.
  apply set_eq. intros x.
  rewrite elem_of_difference, elem_of_union, elem_of_singleton.
  split; [intros [[->|H] Hne]; [contradiction | exact H]|].
  intros H. split; [right; exact H|]. intros ->. contradiction.
Qed.

Lemma ReserveUID_then_FreeUID_restores_witness :
  exists w2,
    FreeUID (advance 2 (pair_drawing [0; 1])) 1
      (fst (fst (ReserveUID (pair_drawing [0; 1]) (reserved_world [0] None))))
    = (w2, None) /\
    w_files w2 = w_files (reserved_world [0] None).
Proof.
  apply (ReserveUID_then_FreeUID_restores (pair_drawing [0; 1])
           (reserved_world [0] None)).
  vm_compute. reflexivity.
Defined.

(** X4. The first free draw wins.  With bounds in order, no I/O fault, and
    a generator whose next [i] draws are reserved uids and whose draw after
    them is a free uid, within the budget of 5 * (maxUID - minUID + 1)
    draws: [ReserveUID] returns that uid after exactly [i + 1] attempts,
    having created its marker and nothing else, and having consumed
    [i + 1] draws. *)
Theorem ReserveUID_first_free_draw a w i :
  sane_bounds a -> no_faults w ->
  Z.of_nat i < 5 * interval_of a ->
  (forall j, (j < i)%nat ->
     marker (uidsDir a) (candidate a (interval_of a) j) ∈ w_files w) ->
  marker (uidsDir a) (candidate a (interval_of a) i) ∉ w_files w ->
  exists w',
    ReserveUID a w = (w', advance (S i) a, Ok (candidate a (interval_of a) i))
    /\ w_files w'
       = {[marker (uidsDir a) (candidate a (interval_of a) i)]} ∪ w_files w
    /\ open_attempts w' = (open_attempts w + S i)%nat.
Proof.
  intros Hs (Hd & Hc & Hcl) Hi Hbusy Hfree.
  destruct (sane_interval a Hs) as (Hpos & _ & _ & Eint & Ebud).
  unfold ReserveUID, allocate. rewrite Ebud, Eint.
  destruct (probe_first_free (Z.to_nat (5 * interval_of a)) a (uidsDir a)
              (interval_of a) w i Hpos Hd Hc ltac:(lia) Hbusy Hfree)
    as (w' & E & Hf & Ho).
  rewrite Hcl in E. exists w'. auto.
Qed.

Lemma ReserveUID_first_free_draw_witness :
  exists w',
    ReserveUID (pair_drawing [0; 0; 1]) (reserved_world [0] None)
    = (w', advance 3 (pair_drawing [0; 0; 1]), Ok 1) /\
    w_files w'
    = {[marker "/var/hsup/uids" 1]} ∪ w_files (reserved_world [0] None) /\
    open_attempts w' = (open_attempts (reserved_world [0%Z] None) + 3)%nat.
Proof.
  apply (ReserveUID_first_free_draw (pair_drawing [0; 0; 1])
           (reserved_world [0] None) 2).
  - unfold sane_bounds. cbn. lia.
  - repeat split.
  - vm_compute. reflexivity.
  - intros j Hj. refine (bool_decide_unpack _ _).
    destruct j as [|[|j]]; [vm_compute; exact I | vm_compute; exact I | lia].
  - intros H. apply (bool_decide_pack _) in H. vm_compute in H. exact H.
Defined.

(** X5. Freed uids can be reserved again at once: after [FreeUID] of a
    reserved uid, a [ReserveUID] whose generator draws that uid next claims
    it on its first attempt, and the directory holds the same files as
    before the release. *)
Theorem FreeUID_then_ReserveUID_reuses a uid w :
  sane_bounds a -> no_faults w ->
  marker (uidsDir a) uid ∈ w_files w ->
  candidate a (interval_of a) 0 = uid ->
  exists w1 w2,
    FreeUID a uid w = (w1, None) /\
    ReserveUID a w1 = (w2, advance 1 a, Ok uid) /\
    w_files w2 = w_files w.
Proof.
  intros Hs (Hd & Hc & Hcl) Hin Hdraw.
  unfold FreeUID.
  change (filepath.Join (uidsDir a) (strconv.Itoa uid))
    with (marker (uidsDir a) uid).
  rewrite (Remove_present _ _ Hd Hin).
  set (w1 := set_files _ _).
  assert (Hgone : marker (uidsDir a) (candidate a (interval_of a) 0)
                    ∉ w_files w1).
  { rewrite Hdraw. unfold w1. cbn [w_files set_files log].
    rewrite elem_of_difference, elem_of_singleton. tauto. }
  destruct (sane_interval a Hs) as (Hpos & _ & _ & Eint & Ebud).
  destruct (probe_first_free (Z.to_nat (5 * interval_of a)) a (uidsDir a)
              (interval_of a) w1 0 Hpos Hd Hc ltac:(lia)
              ltac:(intros j Hj; lia) Hgone)
    as (w2 & E & Hf & _).
  change (w_close_fault w1) with (w_close_fault w) in E.
  rewrite Hcl, Hdraw in E. rewrite Hdraw in Hf.
  exists w1, w2. split; [reflexivity|]. split.
  - unfold ReserveUID, allocate. rewrite Ebud, Eint. exact E.
  - rewrite Hf. unfold w1. cbn [w_files set_files log].
    apply set_eq. intros x.
    rewrite elem_of_union, elem_of_singleton, elem_of_difference,
      elem_of_singleton.
    destruct (decide (x = marker (uidsDir a) uid)) as [->|Hne]; tauto.
Qed.

Lemma FreeUID_then_ReserveUID_reuses_witness :
  exists w1 w2,
    FreeUID (pair_drawing [1]) 1 (reserved_world [0; 1] None) = (w1, None) /\
    ReserveUID (pair_drawing [1]) w1
    = (w2, advance 1 (pair_drawing [1]), Ok 1) /\
    w_files w2 = w_files (reserved_world [0; 1] None).
Proof.
  apply (FreeUID_then_ReserveUID_reuses (pair_drawing [1]) 1
           (reserved_world [0; 1] None)).
  - unfold sane_bounds. cbn. lia.
  - repeat split.
  - refine (bool_decide_unpack _ _). vm_compute. exact I.
  - reflexivity.
Defined.

(** X6. A uid returned by [ReserveUID], the bounds being in order, lies in
    [minUID, maxUID]; its marker did not exist before the call and is the
    only file the call added. *)
Theorem ReserveUID_result_in_range a w w' a' n :
  sane_bounds a ->
  ReserveUID a w = (w', a', Ok n) ->
  minUID a <= n <= maxUID a /\
  (marker (uidsDir a) n ∉ w_files w) /\
  w_files w' = {[marker (uidsDir a) n]} ∪ w_files w.
Proof.
  intros Hs E. destruct (ReserveUID_inv _ _ _ _ _ E) as (k & _ & _ & Hok).
  destruct (Hok n eq_refl) as (-> & _ & _ & Hnot & Hf).
  destruct (sane_interval a Hs) as (Hpos & Hlo & Hhi & Eint & _).
  rewrite Eint in *. split; [|split; assumption].
  pose proof (candidate_range a (interval_of a) (k - 1) Hpos Hlo Hhi) as Hr.
  unfold interval_of in *. lia.
Qed.

Lemma ReserveUID_result_in_range_witness :
  minUID (pair_drawing [0; 1]) <= 1 <= maxUID (pair_drawing [0; 1]) /\
  (marker (uidsDir (pair_drawing [0; 1])) 1
     ∉ w_files (reserved_world [0] None)) /\
  w_files (fst (fst (ReserveUID (pair_drawing [0; 1])
                       (reserved_world [0] None))))
  = {[marker (uidsDir (pair_drawing [0; 1])) 1]}
    ∪ w_files (reserved_world [0] None).
Proof.
  apply (ReserveUID_result_in_range (pair_drawing [0; 1])
           (reserved_world [0] None) _ (advance 2 (pair_drawing [0; 1])) 1).
  - unfold sane_bounds. cbn. lia.
  - vm_compute. reflexivity.
Defined.

(** X7. [ReserveUID] changes nothing of the allocator but the position of
    its generator, which advances by one draw for each exclusive-create
    attempt; whatever the outcome, the directory, the bounds and the
    subnet of every uid are the same before and after. *)
Theorem ReserveUID_consumes_one_draw_per_attempt a w :
  let '(w', a', r) := ReserveUID a w in
  exists k,
    a' = advance k a /\
    open_attempts w' = (open_attempts w + k)%nat /\
    uidsDir a' = uidsDir a /\ minUID a' = minUID a /\ maxUID a' = maxUID a /\
    (forall uid, privateNetForUID a' uid = privateNetForUID a uid).
Proof.
  destruct (ReserveUID a w) as [[w' a'] r] eqn:E.
  destruct (ReserveUID_inv _ _ _ _ _ E) as (k & -> & Ho & _).
  exists k. split; [reflexivity|]. split; [exact Ho|].
  repeat split.
Qed.

(** X8. A failed close leaks the reservation.  When the create of the
    first free draw succeeds and the close of its descriptor fails,
    [ReserveUID] returns the error of the close and no uid, but the marker
    stays: the uid is reserved, and only [FreeUID] makes it available
    again. *)
Theorem ReserveUID_close_failure_leaks_marker a w i e :
  sane_bounds a ->
  w_dir_fault w = None -> w_create_fault w = None ->
  w_close_fault w = Some e ->
  Z.of_nat i < 5 * interval_of a ->
  (forall j, (j < i)%nat ->
     marker (uidsDir a) (candidate a (interval_of a) j) ∈ w_files w) ->
  marker (uidsDir a) (candidate a (interval_of a) i) ∉ w_files w ->
  let n := candidate a (interval_of a) i in
  exists w',
    ReserveUID a w
    = (w', advance (S i) a, Err (PathError "close" (marker (uidsDir a) n) e))
    /\ marker (uidsDir a) n ∈ w_files w'
    /\ exists w'', FreeUID a n w' = (w'', None) /\ w_files w'' = w_files w.
Proof.
  intros Hs Hd Hc Hcl Hi Hbusy Hfree n.
  destruct (sane_interval a Hs) as (Hpos & _ & _ & Eint & Ebud).
  unfold ReserveUID, allocate. rewrite Ebud, Eint.
  destruct (probe_first_free (Z.to_nat (5 * interval_of a)) a (uidsDir a)
              (interval_of a) w i Hpos Hd Hc ltac:(lia) Hbusy Hfree)
    as (w' & E & Hf & Ho).
  rewrite Hcl in E. fold n in E, Hf, Hfree. exists w'. split; [exact E|].
  assert (Hin : marker (uidsDir a) n ∈ w_files w')
    by (rewrite Hf; apply elem_of_union_l, elem_of_singleton; reflexivity).
  split; [exact Hin|].
  assert (Hd' : w_dir_fault w' = None).
  { destruct (probe_inv _ _ _ _ _ _ _ _ E) as (k & _ & _ & _ & Hd' & _).
    congruence. }
  unfold FreeUID.
  change (filepath.Join (uidsDir a) (strconv.Itoa n))
    with (marker (uidsDir a) n).
  rewrite (Remove_present _ _ Hd' Hin). eexists. split; [reflexivity|].
  cbn [w_files set_files log]. rewrite Hf. apply set_eq. intros x.
  rewrite elem_of_difference, elem_of_union, elem_of_singleton.
  destruct (decide (x = marker (uidsDir a) n)) as [->|Hne]; tauto.
Qed.

Lemma ReserveUID_close_failure_leaks_marker_witness :
  exists w',
    ReserveUID (pair_drawing [1]) (reserved_world [0] (Some EIO))
    = (w', advance 1 (pair_drawing [1]),
       Err (PathError "close" (marker "/var/hsup/uids" 1) EIO)) /\
    marker "/var/hsup/uids" 1 ∈ w_files w' /\
    exists w'',
      FreeUID (pair_drawing [1]) 1 w' = (w'', None) /\
      w_files w'' = w_files (reserved_world [0] (Some EIO)).
Proof.
  apply (ReserveUID_close_failure_leaks_marker (pair_drawing [1])
           (reserved_world [0] (Some EIO)) 0 EIO).
  - unfold sane_bounds. cbn. lia.
  - reflexivity.
  - reflexivity.
  - reflexivity.
  - vm_compute. reflexivity.
  - intros j Hj. lia.
  - intros H. apply (bool_decide_pack _) in H. vm_compute in H. exact H.
Defined.

(** X9. An empty range: with maxUID < minUID (the budget not overflowing)
    [ReserveUID] does not enter its loop: it draws nothing, makes no system
    call, and returns the capacity error. *)
Theorem ReserveUID_empty_range a w :
  maxUID a < minUID a ->
  - 2 ^ 63 <= 5 * (maxUID a - minUID a + 1) ->
  ReserveUID a w = (w, a, Err (noFreeNumber (uidsDir a))).
Proof.
  intros Hlt Hb. unfold ReserveUID, allocate, int_add, int_sub, int_mul.
  rewrite (int_wrap_small (maxUID a - minUID a)) by lia.
  rewrite (int_wrap_small (maxUID a - minUID a + 1)) by lia.
  rewrite int_wrap_small by lia.
  replace (Z.to_nat (5 * (maxUID a - minUID a + 1))) with 0%nat by lia.
  reflexivity.
Qed.

Lemma ReserveUID_empty_range_witness :
  ReserveUID empty_allocator (quiet_world [])
  = (quiet_world [], empty_allocator, Err (noFreeNumber "/var/hsup/uids")).
Proof.
  apply (ReserveUID_empty_range empty_allocator (quiet_world [])).
  - cbn. lia.
  - cbn. lia.
Defined.

(** X10. A range of one uid, minUID = maxUID, without I/O fault: the
    generator has no say.  If the uid is free, [ReserveUID] claims it on the
    first attempt; if it is reserved, [ReserveUID] makes exactly 5 attempts
    and returns the capacity error. *)
Theorem ReserveUID_single_uid a w :
  minUID a = maxUID a -> - 2 ^ 63 <= minUID a < 2 ^ 63 -> no_faults w ->
  let file := marker (uidsDir a) (minUID a) in
  (file ∉ w_files w ->
   exists w', ReserveUID a w = (w', advance 1 a, Ok (minUID a)) /\
              w_files w' = {[file]} ∪ w_files w /\
              open_attempts w' = (open_attempts w + 1)%nat) /\
  (file ∈ w_files w ->
   exists w', ReserveUID a w
              = (w', advance 5 a, Err (noFreeNumber (uidsDir a))) /\
              w_files w' = w_files w /\
              open_attempts w' = (open_attempts w + 5)%nat).
Proof.
  intros Heq Hr Hnf file.
  assert (Hs : sane_bounds a) by (unfold sane_bounds; lia).
  assert (Hint : interval_of a = 1) by (unfold interval_of; lia).
  assert (Hcand : forall i, candidate a (interval_of a) i = minUID a).
  { intros i. unfold candidate, int_add. rewrite Hint, Z.mod_1_r.
    rewrite int_wrap_small by lia. reflexivity. }
  split.
  - intros Hfree.
    destruct Hnf as (Hd & Hc & Hcl).
    destruct (sane_interval a Hs) as (Hpos & _ & _ & Eint & Ebud).
    destruct (probe_first_free (Z.to_nat (5 * interval_of a)) a (uidsDir a)
                (interval_of a) w 0 Hpos Hd Hc ltac:(lia)
                ltac:(intros j Hj; lia)
                ltac:(rewrite Hcand; exact Hfree))
      as (w' & E & Hf & Ho).
    rewrite Hcl, Hcand in E. rewrite Hcand in Hf.
    exists w'. unfold ReserveUID, allocate. rewrite Ebud, Eint. auto.
  - intros Hin.
    destruct (sane_interval a Hs) as (Hpos & _ & _ & Eint & Ebud).
    unfold ReserveUID, allocate. rewrite Ebud, Eint, Hint.
    change (Z.to_nat (5 * 1)) with 5%nat.
    assert (Hstep : forall k w0,
      w_files w0 = w_files w ->
      attempt (advance k a) 1 w0
      = (log (SysOpenExcl file) w0, advance (S k) a, None)).
    { intros k w0 Hw0.
      rewrite (attempt_collides (advance k a) 1 w0 ltac:(lia));
        rewrite candidate_advance; rewrite <- Hint, Hcand;
        cbn [uidsDir advance set_rng].
      - rewrite advance_advance, Nat.add_1_r. reflexivity.
      - rewrite Hw0. exact Hin. }
    pose proof (Hstep 0%nat w eq_refl) as H0. rewrite advance_0 in H0.
    cbn [probe]. rewrite H0.
    do 4 (rewrite Hstep by reflexivity).
    eexists. split; [reflexivity|].
    split; [reflexivity|].
    rewrite !open_attempts_log. cbn. lia.
Qed.

Lemma ReserveUID_single_uid_witness :
  (exists w',
     ReserveUID single_allocator (reserved_world [0] None)
     = (w', advance 1 single_allocator, Ok 3) /\
     w_files w'
     = {[marker "/var/hsup/uids" 3]} ∪ w_files (reserved_world [0] None) /\
     open_attempts w'
     = (open_attempts (reserved_world [0%Z] None) + 1)%nat) /\
  (exists w',
     ReserveUID single_allocator (reserved_world [3] None)
     = (w', advance 5 single_allocator,
        Err (noFreeNumber "/var/hsup/uids")) /\
     w_files w' = w_files (reserved_world [3] None) /\
     open_attempts w'
     = (open_attempts (reserved_world [3%Z] None) + 5)%nat).
Proof.
  split.
  - apply (proj1 (ReserveUID_single_uid single_allocator
                    (reserved_world [0] None) eq_refl
                    ltac:(cbn; lia) ltac:(repeat split))).
    intros H. apply (bool_decide_pack _) in H. vm_compute in H. exact H.
  - apply (proj2 (ReserveUID_single_uid single_allocator
                    (reserved_world [3] None) eq_refl
                    ltac:(cbn; lia) ltac:(repeat split))).
    refine (bool_decide_unpack _ _). vm_compute. exact I.
Defined.

(** ** Further properties of the subnet derivation *)

Lemma sameNetwork_true_zip nn m x :
  length nn = length m -> length x = length m ->
  net.sameNetwork nn m x = true ->
  zip_with Z.land nn m = zip_with Z.land x m.
Proof.
  revert m x. induction nn as [|n nn IH]; intros [|k m] [|y x] Hn Hx H;
    try discriminate; try reflexivity.
  cbn [net.sameNetwork] in H. cbn [zip_with].
  destruct (Z.eqb_spec (Z.land n k) (Z.land y k)) as [E|_];
    [|discriminate].
  cbn [negb] in H. rewrite E. f_equal. apply IH; auto.
Qed.

Lemma land_range a b : 0 <= a < 2 ^ 32 -> 0 <= Z.land a b < 2 ^ 32.
Proof.
  intros Ha. split.
  - apply Z.land_nonneg. left. lia.
  - destruct (Z.eq_dec (Z.land a b) 0) as [->|Hne]; [lia|].
    assert (0 <= Z.land a b) by (apply Z.land_nonneg; left; lia).
    apply Z.log2_lt_cancel. rewrite Z.log2_pow2 by lia.
    destruct (Z.eq_dec a 0) as [->|Ha0]; [rewrite Z.land_0_l in Hne; lia|].
    assert (Z.log2 a < 32) by (apply Z.log2_lt_pow2; lia).
    destruct (Z.le_gt_cases 32 (Z.log2 (Z.land a b))) as [Hge|]; [|lia].
    exfalso.
    pose proof (Z.bit_log2 (Z.land a b) ltac:(lia)) as Hbit.
    rewrite Z.land_spec in Hbit.
    rewrite (Z.bits_above_log2 a) in Hbit by lia. discriminate.
Qed.

Lemma mask_land_prefix s B R :
  0 <= s <= 32 -> 0 <= B < 2 ^ 32 -> 0 <= R < 2 ^ 32 ->
  Z.land B (2 ^ 32 - 2 ^ (32 - s)) = Z.land R (2 ^ 32 - 2 ^ (32 - s)) ->
  same_prefix s B R.
Proof.
  intros Hs HB HR E. unfold same_prefix.
  replace (2 ^ 32 - 2 ^ (32 - s)) with (Z.ones s * 2 ^ (32 - s)) in E.
  2:{ rewrite Z.ones_equiv, <- Z.sub_1_r, Z.mul_sub_distr_r,
        <- Z.pow_add_r by lia.
      replace (s + (32 - s)) with 32 by lia. lia. }
  assert (Hhigh : forall X n, 0 <= X < 2 ^ 32 -> 32 <= n ->
                              Z.testbit X n = false).
  { intros X n HX Hn. rewrite <- (Z.mod_small X (2 ^ 32)) by lia.
    apply Z.mod_pow2_bits_high. lia. }
  apply Z.bits_inj'; intros n Hn.
  rewrite !Z.div_pow2_bits by lia.
  destruct (Z.lt_ge_cases (n + (32 - s)) 32) as [Hlt|Hge].
  - apply (f_equal (fun z => Z.testbit z (n + (32 - s)))) in E.
    rewrite !Z.land_spec, Z.mul_pow2_bits in E by lia.
    replace (n + (32 - s) - (32 - s)) with n in E by lia.
    rewrite Z.ones_spec_low in E by lia.
    rewrite !andb_true_r in E. symmetry. exact E.
  - rewrite !Hhigh by lia. reflexivity.
Qed.

Lemma shift_of_offset a i :
  0 <= i < availableSubnets a -> availableSubnets a <= 2 ^ 32 ->
  shift_of a (minUID a + i) = i.
Proof.
  intros Hi Hav. rewrite shift_of_wrapped.
  replace (minUID a + i - minUID a) with i by lia.
  rewrite (Z.mod_small i (2 ^ 32)) by lia. apply Z.mod_small. lia.
Qed.

Section PrefixBlock.
Context (w : World) (workDir : string) (subnet : IPNet.t) (min max : Z).
Context (a : Allocator) (k : Z).
Hypothesis Hbytes : is_bytes (IPNet.IP subnet) = true.
Hypothesis Hmask : IPNet.Mask subnet = net.CIDRMask k 32.
Hypothesis Hnew : snd (NewAllocator w workDir subnet min max) = Ok a.

Local Abbreviation B := (ipv4_to_number (net.To4 (IPNet.IP subnet))).

Lemma prefix_block_size :
  0 <= k <= 32 -> fst (net.Size (IPNet.Mask subnet)) = k.
Proof. intros Hk. rewrite Hmask, Size_CIDRMask by lia. reflexivity. Qed.

Lemma prefix_block_Ok uid :
  0 <= k <= 30 ->
  privateNetForUID a uid
  = Ok (IPNet.mk (number_to_ipv4 ((B / 4 + shift_of a uid) * 4))
                 [255; 255; 255; 252]).
Proof.
  intros Hk. pose proof (prefix_block_size ltac:(lia)) as Hsz.
  destruct (built_derivation w workDir subnet min max a Hbytes Hnew uid
              ltac:(lia)) as (_ & Hp & ->).
  rewrite Hsz in Hp.
  rewrite (built_contains_prefix w workDir subnet min max a Hbytes Hnew k _
             Hmask ltac:(lia) Hp).
  unfold block_after_anchor.
  destruct (NewAllocator_Ok _ _ _ _ _ _ Hbytes Hnew) as (_ & _ & _ & -> & _).
  reflexivity.
Qed.

Lemma prefix_block_available :
  0 <= k <= 30 ->
  availableSubnets a = 2 ^ (30 - k) - B mod 2 ^ (32 - k) / 4 /\
  1 <= availableSubnets a <= 2 ^ 30.
Proof.
  intros Hk. pose proof (prefix_block_size ltac:(lia)) as Hsz.
  pose proof (built_available w workDir subnet min max a Hbytes Hnew
                ltac:(lia)) as Hav.
  pose proof (built_available_range w workDir subnet min max a Hbytes Hnew
                ltac:(lia)) as Hr.
  rewrite Hsz in Hav, Hr. split; [exact Hav|].
  assert (2 ^ (30 - k) <= 2 ^ 30) by (apply Z.pow_le_mono_r; lia). lia.
Qed.

Lemma prefix_block_of_offset i :
  0 <= k <= 30 -> 0 <= i < availableSubnets a ->
  privateNetForUID a (minUID a + i)
  = Ok (IPNet.mk (number_to_ipv4 (B / 4 * 4 + 4 * i)) [255; 255; 255; 252])
  /\ 0 <= B / 4 * 4 + 4 * i < 2 ^ 32.
Proof.
  intros Hk Hi. destruct (prefix_block_available Hk) as [_ Hr].
  rewrite (prefix_block_Ok _ Hk), shift_of_offset by lia.
  replace ((B / 4 + i) * 4) with (B / 4 * 4 + 4 * i) by lia.
  split; [reflexivity|].
  pose proof (prefix_block_size ltac:(lia)) as Hsz.
  destruct (built_derivation w workDir subnet min max a Hbytes Hnew
              (minUID a + i) ltac:(lia)) as (HR & _ & _).
  rewrite shift_of_offset in HR by lia. lia.
Qed.

End PrefixBlock.

(** X11. For an allocator built for an IPv4 block of prefix length at most
    30, the out-of-subnet error of [privateNetForUID] is unreachable: for
    every integer uid, in the range or not, the call returns a /30 subnet
    whose address agrees with the anchor on the prefix of the supernet. *)
Theorem privateNetForUID_never_fails_for_prefix_block
    w workDir subnet min max a k :
  is_bytes (IPNet.IP subnet) = true ->
  IPNet.Mask subnet = net.CIDRMask k 32 -> 0 <= k <= 30 ->
  snd (NewAllocator w workDir subnet min max) = Ok a ->
  forall uid,
    exists n,
      privateNetForUID a uid = Ok n /\
      IPNet.Mask n = net.CIDRMask 30 32 /\
      same_prefix k (ipv4_to_number (net.To4 (IPNet.IP subnet)))
                  (ipv4_to_number (IPNet.IP n)).
Proof.
  intros Hb Hmask Hk Hnew uid.
  rewrite (prefix_block_Ok w workDir subnet min max a k Hb Hmask Hnew uid Hk).
  eexists. split; [reflexivity|]. split; [reflexivity|]. cbn [IPNet.IP].
  destruct (built_derivation w workDir subnet min max a Hb Hnew uid)
    as (HR & Hp & _).
  { rewrite (prefix_block_size subnet k Hmask) by lia. lia. }
  rewrite (prefix_block_size subnet k Hmask) in Hp by lia.
  rewrite ipv4_number_roundtrip by exact HR. exact Hp.
Qed.

Lemma privateNetForUID_never_fails_for_prefix_block_witness :
  exists n,
    privateNetForUID default_allocator (-12345678901) = Ok n /\
    IPNet.Mask n = net.CIDRMask 30 32 /\
    same_prefix 12 (ipv4_to_number (net.To4 (IPNet.IP DefaultPrivateSubnet)))
                (ipv4_to_number (IPNet.IP n)).
Proof.
  apply (privateNetForUID_never_fails_for_prefix_block (quiet_world [])
           "/var/hsup" DefaultPrivateSubnet 0 9 default_allocator 12).
  - reflexivity.
  - reflexivity.
  - lia.
  - reflexivity.
Defined.

(** X12. The blocks handed out fill the supernet from the anchor to its
    end.  For an allocator built for an IPv4 block of prefix length at most
    30, the uid minUID + i, for 0 <= i < availableSubnets, gets the /30
    block at 4 * i addresses after the anchor's own block, and the last of
    them, i = availableSubnets - 1, is the last /30 block of the
    supernet. *)
Theorem subnets_run_from_anchor_to_end_of_supernet
    w workDir subnet min max a k :
  is_bytes (IPNet.IP subnet) = true ->
  IPNet.Mask subnet = net.CIDRMask k 32 -> 0 <= k <= 30 ->
  snd (NewAllocator w workDir subnet min max) = Ok a ->
  let anchor := ipv4_to_number (net.To4 (IPNet.IP subnet)) in
  (forall i, 0 <= i < availableSubnets a ->
     SubnetFor a (minUID a + i)
     = Ok (IPNet.mk (number_to_ipv4 (anchor / 4 * 4 + 4 * i))
                    [255; 255; 255; 252])) /\
  anchor / 4 * 4 + 4 * (availableSubnets a - 1)
  = supernet_base k anchor + 2 ^ (32 - k) - 4.
Proof.
  intros Hb Hmask Hk Hnew anchor. split.
  - intros i Hi.
    apply (prefix_block_of_offset w workDir subnet min max a k Hb Hmask Hnew
             i Hk Hi).
  - destruct (prefix_block_available w workDir subnet min max a k Hb Hmask
                Hnew Hk) as [-> _].
    fold anchor. unfold supernet_base.
    destruct (pow2_split k Hk) as (HK & H32 & _ & _).
    assert (HB : 0 <= anchor)
      by apply (built_anchor w workDir subnet min max a Hb Hnew).
    destruct (skipped_blocks_bound anchor k HB Hk) as [-> _].
    rewrite H32. set (K := 2 ^ (30 - k)) in *.
    rewrite <- (Z.div_div anchor 4 K) by lia.
    pose proof (Z.div_mod (anchor / 4) K ltac:(lia)). nia.
Qed.

Lemma subnets_run_from_anchor_to_end_of_supernet_witness :
  (forall i, 0 <= i < availableSubnets default_allocator ->
     SubnetFor default_allocator (minUID default_allocator + i)
     = Ok (IPNet.mk
             (number_to_ipv4
                (ipv4_to_number (net.To4 (IPNet.IP DefaultPrivateSubnet))
                 / 4 * 4 + 4 * i))
             [255; 255; 255; 252])) /\
  ipv4_to_number (net.To4 (IPNet.IP DefaultPrivateSubnet)) / 4 * 4
    + 4 * (availableSubnets default_allocator - 1)
  = supernet_base 12
      (ipv4_to_number (net.To4 (IPNet.IP DefaultPrivateSubnet)))
    + 2 ^ (32 - 12) - 4.
Proof.
  apply (subnets_run_from_anchor_to_end_of_supernet (quiet_world [])
           "/var/hsup" DefaultPrivateSubnet 0 9 default_allocator 12).
  - reflexivity.
  - reflexivity.
  - lia.
  - reflexivity.
Defined.

(** X13. The obligation of the caller suffices.  For an allocator built
    for an IPv4 block of prefix length at most 30 whose range satisfies
    maxUID - minUID < availableSubnets, any two uids u1 < u2 of
    [minUID, maxUID] get subnets, and the address of the second lies
    4 * (u2 - u1) after that of the first: the /30 blocks of distinct uids
    of the range never overlap. *)
Theorem distinct_uids_in_range_get_disjoint_subnets
    w workDir subnet min max a k u1 u2 :
  is_bytes (IPNet.IP subnet) = true ->
  IPNet.Mask subnet = net.CIDRMask k 32 -> 0 <= k <= 30 ->
  snd (NewAllocator w workDir subnet min max) = Ok a ->
  maxUID a - minUID a < availableSubnets a ->
  minUID a <= u1 -> u1 < u2 -> u2 <= maxUID a ->
  exists n1 n2,
    SubnetFor a u1 = Ok n1 /\ SubnetFor a u2 = Ok n2 /\
    ipv4_to_number (IPNet.IP n2)
    = ipv4_to_number (IPNet.IP n1) + 4 * (u2 - u1).
Proof.
  intros Hb Hmask Hk Hnew Hob H1 H12 H2.
  destruct (prefix_block_of_offset w workDir subnet min max a k Hb Hmask Hnew
              (u1 - minUID a) Hk ltac:(lia)) as [E1 R1].
  destruct (prefix_block_of_offset w workDir subnet min max a k Hb Hmask Hnew
              (u2 - minUID a) Hk ltac:(lia)) as [E2 R2].
  replace (minUID a + (u1 - minUID a)) with u1 in E1 by lia.
  replace (minUID a + (u2 - minUID a)) with u2 in E2 by lia.
  do 2 eexists. split; [exact E1|]. split; [exact E2|]. cbn [IPNet.IP].
  rewrite !ipv4_number_roundtrip by assumption. lia.
Qed.

Lemma distinct_uids_in_range_get_disjoint_subnets_witness :
  exists n1 n2,
    SubnetFor default_allocator 2 = Ok n1 /\
    SubnetFor default_allocator 9 = Ok n2 /\
    ipv4_to_number (IPNet.IP n2)
    = ipv4_to_number (IPNet.IP n1) + 4 * (9 - 2).
Proof.
  apply (distinct_uids_in_range_get_disjoint_subnets (quiet_world [])
           "/var/hsup" DefaultPrivateSubnet 0 9 default_allocator 12 2 9).
  - reflexivity.
  - reflexivity.
  - lia.
  - reflexivity.
  - cbn. lia.
  - cbn. lia.
  - lia.
  - cbn. lia.
Defined.

(** X14. Subnets repeat with period [availableSubnets]: a uid of
    [minUID, minUID + 2^32 - availableSubnets) and the uid
    [availableSubnets] above it get the same result.  In particular, when
    maxUID - minUID = availableSubnets, the largest difference that the
    comment of [NewAllocator] allows, minUID and maxUID share a subnet. *)
Theorem SubnetFor_repeats_every_availableSubnets a :
  0 <= availableSubnets a < 2 ^ 32 ->
  (forall uid,
     minUID a <= uid -> uid + availableSubnets a < minUID a + 2 ^ 32 ->
     SubnetFor a (uid + availableSubnets a) = SubnetFor a uid) /\
  (maxUID a - minUID a = availableSubnets a ->
   SubnetFor a (maxUID a) = SubnetFor a (minUID a)).
Proof.
  intros Hav.
  assert (Hper : forall uid,
     minUID a <= uid -> uid + availableSubnets a < minUID a + 2 ^ 32 ->
     SubnetFor a (uid + availableSubnets a) = SubnetFor a uid).
  { intros uid Hlo Hhi. apply privateNetForUID_shift.
    rewrite !shift_of_in_range by lia.
    destruct (Z.eq_dec (availableSubnets a) 0) as [E|Hne].
    - rewrite E, Z.add_0_r. reflexivity.
    - replace (uid + availableSubnets a - minUID a)
        with (uid - minUID a + 1 * availableSubnets a) by lia.
      apply Z.mod_add. exact Hne. }
  split; [exact Hper|]. intros E.
  replace (maxUID a) with (minUID a + availableSubnets a) by lia.
  apply Hper; lia.
Qed.

Lemma SubnetFor_repeats_every_availableSubnets_witness :
  SubnetFor default_allocator (5 + 262137) = SubnetFor default_allocator 5.
Proof.
  apply (proj1 (SubnetFor_repeats_every_availableSubnets default_allocator
                  ltac:(cbn; lia)) 5).
  - cbn. lia.
  - cbn. lia.
Defined.

(** X15. What [subnetsToSkip] counts.  For an IPv4 address and a prefix
    length of at most 30 it returns the number of /30 blocks between the
    first address of the supernet and the block of the address: the block
    index of the address is that of the supernet's base plus the result,
    and the result is below 2^(30 - prefix). *)
Theorem subnetsToSkip_counts_blocks_before_anchor ip s :
  is_ipv4 ip = true -> 0 <= s <= 30 ->
  exists t,
    subnetsToSkip ip s = Ok t /\
    ipv4_to_number ip / 4 = supernet_base s (ipv4_to_number ip) / 4 + t /\
    0 <= t < 2 ^ (30 - s).
Proof.
  intros Hip Hs. rewrite subnetsToSkip_number by (auto; lia).
  eexists. split; [reflexivity|].
  pose proof (ipv4_to_number_range ip Hip) as HB.
  set (B := ipv4_to_number ip) in *.
  destruct (skipped_blocks_bound B s ltac:(lia) Hs) as [E Hb].
  split; [|exact Hb]. rewrite E. unfold supernet_base.
  destruct (pow2_split s Hs) as (HK & H32 & _ & _).
  rewrite H32. set (K := 2 ^ (30 - s)) in *.
  replace (B / (4 * K) * (4 * K)) with (B / (4 * K) * K * 4) by lia.
  rewrite Z.div_mul by lia.
  rewrite <- (Z.div_div B 4 K) by lia.
  pose proof (Z.div_mod (B / 4) K ltac:(lia)). lia.
Qed.

Lemma subnetsToSkip_counts_blocks_before_anchor_witness :
  exists t,
    subnetsToSkip [172; 16; 0; 28] 12 = Ok t /\
    ipv4_to_number [172; 16; 0; 28] / 4
    = supernet_base 12 (ipv4_to_number [172; 16; 0; 28]) / 4 + t /\
    0 <= t < 2 ^ (30 - 12).
Proof.
  apply (subnetsToSkip_counts_blocks_before_anchor [172; 16; 0; 28] 12).
  - reflexivity.
  - lia.
Defined.



(** X17. The containment test of [privateNetForUID] is a test of the
    prefix.  For an allocator built for an IPv4 block of prefix length
    [k], the supernet it stores contains a 4-byte address exactly when the
    address agrees with the anchor on its first [k] bits. *)
Theorem supernet_contains_iff_same_prefix w workDir subnet min max a k R :
  is_bytes (IPNet.IP subnet) = true ->
  IPNet.Mask subnet = net.CIDRMask k 32 -> 0 <= k <= 32 ->
  snd (NewAllocator w workDir subnet min max) = Ok a ->
  0 <= R < 2 ^ 32 ->
  net.Contains (privateSubnet a) (number_to_ipv4 R) = true <->
  same_prefix k (ipv4_to_number (net.To4 (IPNet.IP subnet))) R.
Proof.
  intros Hb Hmask Hk Hnew HR. split.
  - intros Hc.
    assert (Hm : length (IPNet.Mask subnet) = 4%nat)
      by (rewrite Hmask, CIDRMask_number by exact Hk; reflexivity).
    rewrite (built_supernet_masked w workDir subnet min max a Hb Hnew Hm)
      in Hc.
    destruct (built_anchor w workDir subnet min max a Hb Hnew) as [Hip HB].
    rewrite Hmask, CIDRMask_number in Hc by exact Hk.
    rewrite <- (ipv4_number_back _ Hip) in Hc.
    rewrite zip_land_number, Contains_ipv4 in Hc by reflexivity.
    apply sameNetwork_true_zip in Hc; [|reflexivity..].
    rewrite !zip_land_number in Hc.
    rewrite <- Z.land_assoc, Z.land_diag in Hc.
    apply number_to_ipv4_inj in Hc; [|apply land_range; assumption..].
    apply mask_land_prefix; assumption.
  - apply (built_contains_prefix w workDir subnet min max a Hb Hnew k R
             Hmask Hk).
Qed.

Lemma supernet_contains_iff_same_prefix_witness :
  net.Contains (privateSubnet default_allocator)
               (number_to_ipv4 2887778304) = true <->
  same_prefix 12 (ipv4_to_number (net.To4 (IPNet.IP DefaultPrivateSubnet)))
              2887778304.
Proof.
  apply (supernet_contains_iff_same_prefix (quiet_world []) "/var/hsup"
           DefaultPrivateSubnet 0 9 default_allocator 12 2887778304).
  - reflexivity.
  - reflexivity.
  - lia.
  - reflexivity.
  - lia.
Defined.

(** ** Further properties of reservations in sequence and in parallel *)

(** X18. A uid stays taken until it is freed: when two calls of
    [ReserveUID] on the same storage directory follow each other and both
    return a uid, the two uids differ, whichever allocators made the
    calls. *)
Theorem consecutive_reservations_differ a b w w1 a1 n w2 b2 m :
  uidsDir b = uidsDir a ->
  ReserveUID a w = (w1, a1, Ok n) ->
  ReserveUID b w1 = (w2, b2, Ok m) ->
  m <> n.
Proof.
  intros Hdir E1 E2.
  destruct (ReserveUID_inv _ _ _ _ _ E1) as (k1 & _ & _ & H1).
  destruct (ReserveUID_inv _ _ _ _ _ E2) as (k2 & _ & _ & H2).
  destruct (H1 n eq_refl) as (_ & _ & _ & _ & Hf1).
  destruct (H2 m eq_refl) as (_ & _ & _ & Hnot2 & _).
  intros ->. apply Hnot2. rewrite Hdir, Hf1.
  apply elem_of_union_l, elem_of_singleton. reflexivity.
Qed.

Lemma consecutive_reservations_differ_witness : 1 <> 0.
Proof.
  apply (consecutive_reservations_differ (pair_drawing [0])
           (pair_drawing [0; 1]) (quiet_world [])
           (fst (fst (ReserveUID (pair_drawing [0]) (quiet_world []))))
           (advance 1 (pair_drawing [0])) 0
           (fst (fst (ReserveUID (pair_drawing [0; 1])
              (fst (fst (ReserveUID (pair_drawing [0]) (quiet_world [])))))))
           (advance 2 (pair_drawing [0; 1])) 1).
  - reflexivity.
  - vm_compute. reflexivity.
  - vm_compute. reflexivity.
Defined.

Lemma granted_insert (l : list Caller) (k : nat) c c' :
  l !! k = Some c ->
  omap granted_uid l
  = omap granted_uid (take k l) ++ omap granted_uid [c]
    ++ omap granted_uid (drop (S k) l) /\
  omap granted_uid (<[k := c']> l)
  = omap granted_uid (take k l) ++ omap granted_uid [c']
    ++ omap granted_uid (drop (S k) l).
Proof.
  intros Hk. split.
  - rewrite <- (take_drop_middle l k c Hk) at 1.
    change (c :: drop (S k) l) with ([c] ++ drop (S k) l).
    rewrite !omap_app. reflexivity.
  - rewrite insert_take_drop by (eapply lookup_lt_Some; eauto).
    change (c' :: drop (S k) l) with ([c'] ++ drop (S k) l).
    rewrite !omap_app. reflexivity.
Qed.

Lemma granted_insert_same (l : list Caller) (k : nat) c c' :
  l !! k = Some c -> granted_uid c' = granted_uid c ->
  omap granted_uid (<[k := c']> l) = omap granted_uid l.
Proof.
  intros Hk E. destruct (granted_insert l k c c' Hk) as [-> ->].
  cbn. rewrite E. reflexivity.
Qed.

Lemma granted_insert_new (l : list Caller) (k : nat) c c' n :
  l !! k = Some c -> granted_uid c = None -> granted_uid c' = Some n ->
  omap granted_uid (<[k := c']> l) ≡ₚ n :: omap granted_uid l.
Proof.
  intros Hk E E'. destruct (granted_insert l k c c' Hk) as [-> ->].
  cbn. rewrite E, E'. cbn. symmetry. apply Permutation_middle.
Qed.

Lemma caller_step_grant c w lo hi :
  minUID (c_alloc c) = lo -> c_interval c = hi - lo + 1 ->
  - 2 ^ 63 <= lo -> hi < 2 ^ 63 ->
  match caller_step c w with
  | (w', c') =>
      uidsDir (c_alloc c') = uidsDir (c_alloc c) /\
      minUID (c_alloc c') = lo /\ c_interval c' = hi - lo + 1 /\
      (w_files w ⊆ w_files w') /\
      (granted_uid c' = granted_uid c \/
       exists n, granted_uid c = None /\ granted_uid c' = Some n /\
                 lo <= n <= hi /\
                 (marker (uidsDir (c_alloc c)) n ∉ w_files w) /\
                 (marker (uidsDir (c_alloc c)) n ∈ w_files w'))
  end.
Proof.
  intros Hlo Hint Hmin Hmax. unfold caller_step.
  destruct (c_result c) as [r|] eqn:Er.
  { repeat (split; [auto; fail|]). left. reflexivity. }
  destruct (c_retries c) as [|k].
  { cbn. repeat (split; [auto; fail|]). left.
    unfold granted_uid. cbn. rewrite Er. reflexivity. }
  destruct (attempt (c_alloc c) (c_interval c) w) as [[w1 a1] r] eqn:Ea.
  destruct (attempt_inv _ _ _ _ _ _ Ea)
    as [(m & -> & -> & -> & _)|(Hi & -> & _ & _ & _ & _ & Hcase)].
  { cbn. repeat (split; [auto; fail|]). left.
    unfold granted_uid. cbn. rewrite Er. reflexivity. }
  cbv zeta in Hcase. cbn [c_alloc c_interval uidsDir minUID advance set_rng].
  split; [reflexivity|]. split; [exact Hlo|]. split; [exact Hint|].
  destruct Hcase as [[-> Hf]|(Hnot & Hf & _ & _ & ->)].
  - split; [rewrite Hf; reflexivity|]. left.
    unfold granted_uid. cbn. rewrite Er. reflexivity.
  - split; [rewrite Hf; apply union_subseteq_r|].
    destruct (w_close_fault w).
    + left. unfold granted_uid. cbn. rewrite Er. reflexivity.
    + right. eexists. split; [unfold granted_uid; rewrite Er; reflexivity|].
      split; [reflexivity|].
      pose proof (candidate_range (c_alloc c) (c_interval c) 0 Hi
                    ltac:(lia) ltac:(lia)) as Hr.
      split; [lia|]. split; [exact Hnot|].
      rewrite Hf. apply elem_of_union_l, elem_of_singleton. reflexivity.
Qed.

Lemma grants_ok_step d lo hi before s k :
  - 2 ^ 63 <= lo -> hi < 2 ^ 63 ->
  grants_ok d lo hi before s -> grants_ok d lo hi before (sys_step s k).
Proof.
  intros Hmin Hmax (Hcfg & Hbef & Hnd & Hall). unfold sys_step.
  destruct (sys_callers s !! k) as [c|] eqn:Ek;
    [|split; [|split; [|split]]; assumption].
  rewrite Forall_lookup in Hcfg. destruct (Hcfg k c Ek) as (Hd & Hlo & Hint).
  pose proof (caller_step_grant c (sys_world s) lo hi Hlo Hint Hmin Hmax)
    as Hstep.
  destruct (caller_step c (sys_world s)) as [w' c'].
  destruct Hstep as (Hd' & Hlo' & Hint' & Hsub & Hgr).
  unfold grants_ok, granted. cbn [sys_callers sys_world].
  split; [|split].
  - apply Forall_insert; [apply Forall_lookup; exact Hcfg|].
    split; [congruence|]. split; assumption.
  - etransitivity; eassumption.
  - assert (Hkeep : Forall (fun n => lo <= n <= hi /\
                       marker d n ∈ w_files w' /\ marker d n ∉ before)
                      (granted s)).
    { eapply Forall_impl; [exact Hall|]. intros n (Hr & Hin & Hnb).
      split; [exact Hr|]. split; [apply Hsub, Hin | exact Hnb]. }
    destruct Hgr as [Esame|(n & Enone & Enew & Hr & Hnot & Hin)].
    + rewrite (granted_insert_same _ _ _ _ Ek Esame). split; assumption.
    + pose proof (granted_insert_new _ _ _ _ _ Ek Enone Enew) as Hperm.
      rewrite Hd in Hnot, Hin.
      assert (Hfresh : n ∉ granted s).
      { intros Hn. rewrite Forall_forall in Hall.
        destruct (Hall n Hn) as (_ & Hm & _). contradiction. }
      split.
      * rewrite Hperm. apply NoDup_cons. split; assumption.
      * rewrite Hperm. apply Forall_cons. split; [|exact Hkeep].
        split; [exact Hr|]. split; [exact Hin|].
        intros Hb. apply Hnot, Hbef, Hb.
Qed.

Lemma grants_ok_run d lo hi before sched s :
  - 2 ^ 63 <= lo -> hi < 2 ^ 63 ->
  grants_ok d lo hi before s -> grants_ok d lo hi before (run sched s).
Proof.
  intros Hmin Hmax. unfold run. revert s.
  induction sched as [|k sched IH]; intros s H; cbn; [exact H|].
  apply IH, grants_ok_step; assumption.
Qed.

Lemma granted_spawn w allocs : granted (spawn w allocs) = [].
Proof.
  unfold granted, spawn. cbn [sys_callers].
  induction allocs as [|a l IH]; [reflexivity|]. cbn. exact IH.
Qed.

Lemma NoDup_in_range_length (l : list Z) lo hi :
  NoDup l -> Forall (fun n => lo <= n <= hi) l ->
  Z.of_nat (length l) <= Z.max 0 (hi - lo + 1).
Proof.
  intros Hnd Hall.
  assert (Hsub : l ⊆+ seqZ lo (hi - lo + 1)).
  { apply NoDup_submseteq; [exact Hnd|]. intros x Hx.
    rewrite Forall_forall in Hall. apply elem_of_seqZ.
    specialize (Hall x Hx). lia. }
  apply submseteq_length in Hsub. rewrite length_seqZ in Hsub. lia.
Qed.

(** X19. The capacity of the range is never exceeded.  Callers of
    [ReserveUID] that share the storage directory and the bounds, under any
    schedule and from any state of the directory: the uids granted are
    pairwise distinct uids of [minUID, maxUID] whose markers did not exist
    at the start, so at most maxUID - minUID + 1 calls succeed. *)
Theorem grants_never_exceed_the_range w allocs d lo hi sched :
  - 2 ^ 63 <= lo -> lo <= hi -> hi < 2 ^ 63 ->
  5 * (hi - lo + 1) < 2 ^ 63 ->
  Forall (fun a => uidsDir a = d /\ minUID a = lo /\ maxUID a = hi) allocs ->
  let s := run sched (spawn w allocs) in
  NoDup (granted s) /\
  Forall (fun n => lo <= n <= hi /\ marker d n ∈ w_files (sys_world s) /\
                   marker d n ∉ w_files w) (granted s) /\
  Z.of_nat (length (granted s)) <= hi - lo + 1.
Proof.
  intros Hmin Hle Hmax Hb Hall s.
  assert (H0 : grants_ok d lo hi (w_files w) (spawn w allocs)).
  { split; [|split; [|split]].
    - unfold spawn. cbn [sys_callers]. apply Forall_fmap.
      eapply Forall_impl; [exact Hall|]. intros a (Hd & Hlo & Hhi).
      cbn. split; [exact Hd|]. split; [exact Hlo|].
      assert (Hs : sane_bounds a) by (unfold sane_bounds; rewrite Hlo, Hhi; lia).
      destruct (sane_budget a Hs) as [-> _]. rewrite Hlo, Hhi. reflexivity.
    - reflexivity.
    - rewrite granted_spawn. constructor.
    - rewrite granted_spawn. constructor. }
  destruct (grants_ok_run d lo hi (w_files w) sched _ Hmin Hmax H0)
    as (_ & _ & Hnd & Hgr).
  fold s in Hnd, Hgr. split; [exact Hnd|]. split; [exact Hgr|].
  pose proof (NoDup_in_range_length (granted s) lo hi Hnd) as Hlen.
  rewrite Z.max_r in Hlen by lia. apply Hlen.
  eapply Forall_impl; [exact Hgr|]. intros n (Hr & _). exact Hr.
Qed.

Lemma grants_never_exceed_the_range_witness :
  let s := run [0%nat; 1%nat; 2%nat; 2%nat; 1%nat]
               (spawn (quiet_world [])
                  [pair_drawing [0]; pair_drawing [0; 1];
                   pair_drawing [1; 0]]) in
  NoDup (granted s) /\
  Forall (fun n => 0 <= n <= 1 /\
                   marker "/var/hsup/uids" n ∈ w_files (sys_world s) /\
                   marker "/var/hsup/uids" n ∉ w_files (quiet_world []))
         (granted s) /\
  Z.of_nat (length (granted s)) <= 1 - 0 + 1.
Proof.
  apply (grants_never_exceed_the_range (quiet_world [])
           [pair_drawing [0]; pair_drawing [0; 1]; pair_drawing [1; 0]]
           "/var/hsup/uids" 0 1
           [0%nat; 1%nat; 2%nat; 2%nat; 1%nat]).
  - lia.
  - lia.
  - lia.
  - lia.
  - repeat constructor.
Defined.

Example three_callers_two_uids :
  granted (run [0%nat; 1%nat; 2%nat; 2%nat; 1%nat]
               (spawn (quiet_world [])
                  [pair_drawing [0]; pair_drawing [0; 1];
                   pair_drawing [1; 0]]))
  = [0; 1].
Proof. vm_compute. reflexivity. Qed.
